(** * patternomatic: the [find_patterns] entry point and the GE population

    A shallow embedding of [patternomatic/api.py] and of the population
    operators its tests exercise.  Python objects that live outside the
    embedded module (spaCy, the configuration singleton, [Stats],
    [Population], the logger, the clock) are an interface of operations on an
    explicit heap; every call made through that interface is appended to a
    trace, so that statements about "how often" and "in which order" can be
    read off the trace. *)

From Stdlib Require Import String.
From Stdlib Require Import List ZArith QArith Lia Bool Arith.
From Stdlib Require Import Permutation Sorted.
Import ListNotations.

Local Open Scope list_scope.

(** ** Python values and built-ins *)

Module Py.

(** The exception classes the code names, and a bucket for the others. *)
Inductive exn : Type :=
| OSError
| NotImplementedError
| IndexError
| OtherError (name : string).

(** [x < y] on finite floats, read as rationals. *)
Definition lt (x y : Q) : bool :=
  match (x ?= y)%Q with Lt => true | _ => false end.

(** [x == y] on finite floats. *)
Definition eq (x y : Q) : bool := Qeq_bool x y.

Section Sort.
Context {A : Type} (key : A -> Q).

(** One step of a stable insertion: [x], which stood before every element
    of [l], goes behind the elements whose key is strictly smaller and in
    front of the first one whose key is not. *)
Fixpoint insert (x : A) (l : list A) : list A :=
  match l with
  | [] => [x]
  | y :: t => if lt (key y) (key x) then y :: insert x t else x :: y :: t
  end.

(** The stable ascending sort that [list.sort] is documented to be; only
    [<] on keys is used, as in CPython. *)
Fixpoint stable_sort (l : list A) : list A :=
  match l with
  | [] => []
  | x :: t => insert x (stable_sort t)
  end.

(** [l.sort(key=key, reverse=reverse)]: with [reverse=True] CPython
    reverses the list, sorts it stably in ascending order and reverses it
    again, so that equal keys keep their original order. *)
Definition list_sort (reverse : bool) (l : list A) : list A :=
  if reverse then rev (stable_sort (rev l)) else stable_sort l.

(** The two orders a sorted list can be in, and the elements of a list
    whose key equals [q], in list order. *)
Definition ascending (a b : A) : Prop := (key a <= key b)%Q.
Definition descending (a b : A) : Prop := (key b <= key a)%Q.
Definition with_key (q : Q) (l : list A) : list A :=
  filter (fun a => eq (key a) q) l.
End Sort.

Section Zip.
Context {A : Type}.

(** The next element of every argument of [zip], or [None] as soon as one
    of them is exhausted. *)
Fixpoint heads (rows : list (list A)) : option (list A) :=
  match rows with
  | [] => Some []
  | [] :: _ => None
  | (x :: _) :: rs =>
      match heads rs with
      | Some hs => Some (x :: hs)
      | None => None
      end
  end.

Fixpoint zip_steps (n : nat) (rows : list (list A)) : list (list A) :=
  match n with
  | O => []
  | S n' =>
      match heads rows with
      | Some hs => hs :: zip_steps n' (map (@tl A) rows)
      | None => []
      end
  end.

(** [list(zip( *rows ))]: no argument gives the empty list; otherwise one
    tuple per position, up to the shortest argument (which is no longer
    than the first). *)
Definition zip_star (rows : list (list A)) : list (list A) :=
  match rows with
  | [] => []
  | r :: _ => zip_steps (length r) rows
  end.
End Zip.

(** [range(lo, hi)] *)
Definition range (lo hi : Z) : list Z :=
  map (fun k => (lo + Z.of_nat k)%Z) (seq 0 (Z.to_nat (hi - lo))).

End Py.

(** ** Individuals *)

(** A spaCy Matcher pattern: one attribute dictionary per token. *)
Definition Fenotype : Type := list (list (string * string)).

(** The attributes of [Individual] that the embedded code reads. *)
Record Individual : Type := mkIndividual {
  genotype : list bool;
  fenotype : Fenotype;
  fitness_value : Q
}.

(** What a tuple of the result may hold ([Tuple[Any, ...]]). *)
Inductive PyVal : Type :=
| PyFenotype (f : Fenotype)
| PyFloat (q : Q).

(** ** [patternomatic/api.py] *)

Module Api.
Import Py.

Inductive Level : Type := Info | Warning.

(** The messages [find_patterns] logs, by source line. *)
Inductive LogMsg : Type :=
| LoadingModel (name : option string)
| InstallingDefaultModel
| ModelNotFound (name : option string)
| BuildingDocs
| SettingUpConfig (path : string)
| ExistingConfig
| StartingExecution
| ExecutionReport
| BestIndividuals
| BestIndividual (i : Individual).

(** The collaborators of [find_patterns].  [Ext] is whatever state they
    keep besides the accumulator of the [Stats] object in use. *)
Class Externals : Type := {
  Language : Type;
  Doc : Type;
  Grammar : Type;
  Config : Type;
  Population : Type;
  Time : Type;
  Ext : Type
}.

Section Model.
Context {X : Externals}.

Record Heap : Type := mkHeap {
  most_fitted_accumulator : list Individual;
  ext : Ext
}.

Definition Op (A : Type) : Type := Heap -> (exn + A) * Heap.

Class Collaborators : Type := {
  working_set : Heap -> list string;
  spacy_download : string -> Op unit;
  spacy_load : option string -> Op Language;
  nlp_call : Language -> string -> Op Doc;
  Config_new : option string -> Op Config;
  max_runs : Config -> Z;
  Stats_new : Op unit;
  dgg : list Doc -> Op Grammar;
  monotonic : Heap -> Time * Heap;
  time_sub : Time -> Time -> Time;
  Population_new : list Doc -> Grammar -> Op Population;
  evolve : Population -> Op unit;
  add_time : Time -> Op unit;
  calculate_metrics : Op unit;
  persist : Op unit;
  log : Level -> LogMsg -> Ext -> Ext
}.

(** A call through the interface, with what it returned or raised. *)
Inductive Event : Type :=
| EvLog (lvl : Level) (msg : LogMsg)
| EvSpacyDownload (name : string) (r : exn + unit)
| EvSpacyLoad (name : option string) (r : exn + Language)
| EvNlp (nlp : Language) (sample : string) (r : exn + Doc)
| EvConfig (path : option string) (r : exn + Config)
| EvStats (r : exn + unit)
| EvDgg (samples : list Doc) (r : exn + Grammar)
| EvMonotonic (t : Time)
| EvPopulation (samples : list Doc) (g : Grammar) (r : exn + Population)
| EvEvolve (p : Population) (r : exn + unit)
| EvAddTime (dt : Time) (r : exn + unit)
| EvCalculateMetrics (r : exn + unit)
| EvPersist (r : exn + unit).

Record State : Type := mkState {
  heap : Heap;
  calls : list Event
}.

(** Computations that read and write the state and may raise. *)
Definition M (A : Type) : Type := State -> (exn + A) * State.

Definition ret {A} (a : A) : M A := fun s => (inr a, s).

Definition bind {A B} (m : M A) (k : A -> M B) : M B :=
  fun s =>
    match m s with
    | (inr a, s') => k a s'
    | (inl e, s') => (inl e, s')
    end.

(** [try: m  except OSError: h] *)
Definition try_except_OSError {A} (m h : M A) : M A :=
  fun s =>
    match m s with
    | (inl OSError, s') => h s'
    | other => other
    end.

Definition invoke {A} (ev : exn + A -> Event) (op : Op A) : M A :=
  fun s =>
    let (r, h) := op (heap s) in
    (r, {| heap := h; calls := calls s ++ [ev r] |}).

Context {C : Collaborators}.

Local Notation "x <- m ;; k" := (bind m (fun x => k))
  (at level 61, m at next level, right associativity).
Local Notation "m ;; k" := (bind m (fun _ => k))
  (at level 61, right associativity).

Definition read {A} (f : Heap -> A) : M A :=
  fun s => (inr (f (heap s)), s).

(** [LOG.info(...)] and [LOG.warning(...)]: the logger works on [Ext]
    only and does not raise. *)
Definition log_ (lvl : Level) (msg : LogMsg) : M unit :=
  fun s =>
    (inr tt,
     {| heap := {| most_fitted_accumulator :=
                     most_fitted_accumulator (heap s);
                   ext := log lvl msg (ext (heap s)) |};
        calls := calls s ++ [EvLog lvl msg] |}).

(** [time.monotonic()] *)
Definition monotonic_ : M Time :=
  fun s =>
    let (t, h) := monotonic (heap s) in
    (inr t, {| heap := h; calls := calls s ++ [EvMonotonic t] |}).

(** [for x in l: body] *)
Fixpoint for_each {A} (l : list A) (body : A -> M unit) : M unit :=
  match l with
  | [] => ret tt
  | x :: t => body x ;; for_each t body
  end.

(** [[f(x) for x in l]] *)
Fixpoint comprehension {A B} (f : A -> M B) (l : list A) : M (list B) :=
  match l with
  | [] => ret []
  | x :: t => y <- f x ;; ys <- comprehension f t ;; ret (y :: ys)
  end.

Definition default_model : string := "en_core_web_sm"%string.

(** Lines 56-62: install the default model when its distribution is not
    in the working set. *)
Definition ensure_default_model (name : option string) : M unit :=
  log_ Info (LoadingModel name) ;;
  ws <- read working_set ;;
  if negb (existsb (String.eqb "en-core-web-sm"%string) ws)
  then log_ Info InstallingDefaultModel ;;
       invoke (EvSpacyDownload default_model) (spacy_download default_model)
  else ret tt.

(** Lines 64-72: load the requested model, the default one on [OSError]. *)
Definition load_language_model (name : option string) : M Language :=
  try_except_OSError
    (invoke (EvSpacyLoad name) (spacy_load name))
    (log_ Warning (ModelNotFound name) ;;
     invoke (EvSpacyLoad (Some default_model))
            (spacy_load (Some default_model))).

(** Lines 77-84: [isinstance(configuration, str)] decides how the
    configuration is obtained. *)
Definition setup_configuration (configuration : option string) : M Config :=
  match configuration with
  | Some path =>
      log_ Info (SettingUpConfig path) ;;
      invoke (EvConfig (Some path)) (Config_new (Some path))
  | None =>
      config <- invoke (EvConfig None) (Config_new None) ;;
      log_ Info ExistingConfig ;;
      ret config
  end.

(** Lines 92-97: the body of the run loop. *)
Definition run (samples : list Doc) (bnf_g : Grammar) : M unit :=
  start <- monotonic_ ;;
  p <- invoke (EvPopulation samples bnf_g) (Population_new samples bnf_g) ;;
  invoke (EvEvolve p) (evolve p) ;;
  end_ <- monotonic_ ;;
  invoke (EvAddTime (time_sub end_ start)) (add_time (time_sub end_ start)) ;;
  invoke EvCalculateMetrics calculate_metrics.

(** Lines 74-100: from the annotation of the samples up to and including
    [stats.persist()], for the language model [nlp]. *)
Definition execute_runs (nlp : Language) (samples : list string)
    (configuration : option string) : M unit :=
  log_ Info BuildingDocs ;;
  samples <- comprehension
               (fun sample => invoke (EvNlp nlp sample) (nlp_call nlp sample))
               samples ;;
  config <- setup_configuration configuration ;;
  invoke EvStats Stats_new ;;
  bnf_g <- invoke (EvDgg samples) (dgg samples) ;;
  log_ Info StartingExecution ;;
  for_each (range 0 (max_runs config)) (fun _ => run samples bnf_g) ;;
  log_ Info ExecutionReport ;;
  invoke EvPersist persist.

(** Lines 56-100. *)
Definition execution (samples : list string) (configuration : option string)
    (spacy_language_model_name : option string) : M unit :=
  ensure_default_model spacy_language_model_name ;;
  nlp <- load_language_model spacy_language_model_name ;;
  execute_runs nlp samples configuration.

(** Line 103: the in-place sort of the accumulator. *)
Definition sort_accumulator : M unit :=
  fun s =>
    (inr tt,
     {| heap := {| most_fitted_accumulator :=
                     list_sort fitness_value true
                               (most_fitted_accumulator (heap s));
                   ext := ext (heap s) |};
        calls := calls s |}).

(** The rows [[i.fenotype, i.fitness_value] for i in acc] of line 108. *)
Definition rows (acc : list Individual) : list (list PyVal) :=
  map (fun i => [PyFenotype (fenotype i); PyFloat (fitness_value i)]) acc.

(** Lines 102-109: sort, log and return the accumulator. *)
Definition best_individuals : M (list (list PyVal)) :=
  log_ Info BestIndividuals ;;
  sort_accumulator ;;
  acc <- read most_fitted_accumulator ;;
  for_each acc (fun individual => log_ Info (BestIndividual individual)) ;;
  acc' <- read most_fitted_accumulator ;;
  ret (zip_star (rows acc')).

Definition find_patterns (samples : list string)
    (configuration : option string)
    (spacy_language_model_name : option string) : M (list (list PyVal)) :=
  execution samples configuration spacy_language_model_name ;;
  best_individuals.

(** Classifiers of trace events. *)
Definition is_dgg (e : Event) : bool :=
  match e with EvDgg _ _ => true | _ => false end.
Definition is_population (e : Event) : bool :=
  match e with EvPopulation _ _ _ => true | _ => false end.
Definition is_evolve (e : Event) : bool :=
  match e with EvEvolve _ _ => true | _ => false end.
Definition is_add_time (e : Event) : bool :=
  match e with EvAddTime _ _ => true | _ => false end.
Definition is_config (e : Event) : bool :=
  match e with EvConfig _ _ => true | _ => false end.

(** Events that are neither a grammar construction nor part of a run. *)
Definition quiet (e : Event) : bool :=
  negb (is_dgg e || is_population e || is_evolve e || is_add_time e).

(** Quiet events other than the construction of the configuration. *)
Definition plain (e : Event) : bool := quiet e && negb (is_config e).

(** [t] is what a computation appended to the trace between [s] and
    [s']. *)
Definition extends (s s' : State) (t : list Event) : Prop :=
  calls s' = calls s ++ t.

(** The calls of one completed iteration of the run loop. *)
Record RunRecord : Type := mkRun {
  run_start : Time;
  run_population : Population;
  run_end : Time
}.

(** What the claim of a list of pairs would have [find_patterns] return
    for the sorted accumulator [acc]: one pair per individual. *)
Definition pairs (acc : list Individual) : list (list PyVal) := rows acc.

(** What line 107 returns for a sorted accumulator [acc]: nothing, or the
    tuple of the phenotypes and the tuple of the fitness values. *)
Definition columns (acc : list Individual) : list (list PyVal) :=
  match acc with
  | [] => []
  | _ :: _ => [ map (fun i => PyFenotype (fenotype i)) acc;
                map (fun i => PyFloat (fitness_value i)) acc ]
  end.

Definition run_events (samples : list Doc) (bnf_g : Grammar)
    (r : RunRecord) : list Event :=
  [ EvMonotonic (run_start r);
    EvPopulation samples bnf_g (inr (run_population r));
    EvEvolve (run_population r) (inr tt);
    EvMonotonic (run_end r);
    EvAddTime (time_sub (run_end r) (run_start r)) (inr tt);
    EvCalculateMetrics (inr tt) ].

(** *** Reading the trace *)

Definition failure {A} (r : exn + A) : option exn :=
  match r with
  | inl e => Some e
  | inr _ => None
  end.

(** The exception a call raised, if it raised one. *)
Definition raised (e : Event) : option exn :=
  match e with
  | EvLog _ _ => None
  | EvMonotonic _ => None
  | EvSpacyDownload _ r => failure r
  | EvSpacyLoad _ r => failure r
  | EvNlp _ _ r => failure r
  | EvConfig _ r => failure r
  | EvStats r => failure r
  | EvDgg _ r => failure r
  | EvPopulation _ _ r => failure r
  | EvEvolve _ r => failure r
  | EvAddTime _ r => failure r
  | EvCalculateMetrics r => failure r
  | EvPersist r => failure r
  end.

Definition is_download (e : Event) : bool :=
  match e with EvSpacyDownload _ _ => true | _ => false end.
Definition is_load (e : Event) : bool :=
  match e with EvSpacyLoad _ _ => true | _ => false end.
Definition is_nlp (e : Event) : bool :=
  match e with EvNlp _ _ _ => true | _ => false end.
Definition is_monotonic (e : Event) : bool :=
  match e with EvMonotonic _ => true | _ => false end.
Definition is_persist (e : Event) : bool :=
  match e with EvPersist _ => true | _ => false end.

(** The log lines of a trace, in order. *)
Definition messages (t : list Event) : list (Level * LogMsg) :=
  flat_map (fun e => match e with
                     | EvLog lvl msg => [(lvl, msg)]
                     | _ => []
                     end) t.

(** A call that returned, or the load of the requested model raising the
    [OSError] that line 66 catches. *)
Definition tolerated (name : option string) (e : Event) : Prop :=
  raised e = None \/ e = EvSpacyLoad name (inl OSError).

(** How a trace [t] stands to the outcome [r] of the computation that
    appended it: when the computation returned, every call of [t] is
    tolerated; when it raised [e], the last call of [t] raised [e] and every
    call before it is tolerated. *)
Definition disciplined {A} (name : option string) (r : exn + A)
    (t : list Event) : Prop :=
  match r with
  | inr _ => Forall (tolerated name) t
  | inl e => exists t0 ev,
               t = t0 ++ [ev] /\ Forall (tolerated name) t0 /\
               raised ev = Some e
  end.

Definition obeys {A} (name : option string) (m : M A) : Prop :=
  forall s r s', m s = (r, s') ->
                 exists t, extends s s' t /\ disciplined name r t.

(** Whatever its outcome, [m] appends only events that satisfy [P]. *)
Definition emits {A} (P : Event -> bool) (m : M A) : Prop :=
  forall s r s', m s = (r, s') ->
                 exists t, extends s s' t /\ forallb P t = true.

(** The heap after a line has been logged. *)
Definition logged_heap (lvl : Level) (msg : LogMsg) (h : Heap) : Heap :=
  {| most_fitted_accumulator := most_fitted_accumulator h;
     ext := log lvl msg (ext h) |}.

(** Line 57, on the heap in which it is evaluated: whether the distribution
    of the default model is in the working set. *)
Definition default_installed (name : option string) (s : State) : bool :=
  existsb (String.eqb "en-core-web-sm"%string)
          (working_set (logged_heap Info (LoadingModel name) (heap s))).

(** The calls of the phases of a call that returns. *)
Definition ensure_events (name : option string) (downloaded : bool)
  : list Event :=
  EvLog Info (LoadingModel name)
  :: (if downloaded
      then [ EvLog Info InstallingDefaultModel;
             EvSpacyDownload default_model (inr tt) ]
      else []).

Definition load_events (name : option string) (fell_back : bool)
    (nlp : Language) : list Event :=
  if fell_back
  then [ EvSpacyLoad name (inl OSError);
         EvLog Warning (ModelNotFound name);
         EvSpacyLoad (Some default_model) (inr nlp) ]
  else [ EvSpacyLoad name (inr nlp) ].

Definition nlp_events (nlp : Language) (samples : list string)
    (docs : list Doc) : list Event :=
  map (fun sd => EvNlp nlp (fst sd) (inr (snd sd))) (combine samples docs).

Definition config_events (configuration : option string) (config : Config)
  : list Event :=
  match configuration with
  | Some path => [ EvLog Info (SettingUpConfig path);
                   EvConfig (Some path) (inr config) ]
  | None => [ EvConfig None (inr config); EvLog Info ExistingConfig ]
  end.

Definition report_events (acc : list Individual) : list Event :=
  EvLog Info BestIndividuals
  :: map (fun i => EvLog Info (BestIndividual i)) acc.

(** All the calls of a call that returns, in order. *)
Definition call_events (name : option string) (downloaded fell_back : bool)
    (nlp : Language) (samples : list string) (docs : list Doc)
    (configuration : option string) (config : Config) (bnf_g : Grammar)
    (runs : list RunRecord) (acc : list Individual) : list Event :=
  ensure_events name downloaded
  ++ load_events name fell_back nlp
  ++ EvLog Info BuildingDocs
  :: nlp_events nlp samples docs
  ++ config_events configuration config
  ++ EvStats (inr tt)
  :: EvDgg docs (inr bnf_g)
  :: EvLog Info StartingExecution
  :: concat (map (run_events docs bnf_g) runs)
  ++ EvLog Info ExecutionReport
  :: EvPersist (inr tt)
  :: report_events acc.

Definition no_download (e : Event) : bool := negb (is_download e).
Definition no_load (e : Event) : bool := negb (is_load e).

Definition is_stats (e : Event) : bool :=
  match e with EvStats _ => true | _ => false end.

(** The calls that lines 92-97 make. *)
Definition in_run (e : Event) : bool :=
  match e with
  | EvMonotonic _ | EvPopulation _ _ _ | EvEvolve _ _
  | EvAddTime _ _ | EvCalculateMetrics _ => true
  | _ => false
  end.

(** The loads of a call that got a language model: the requested one, or
    the requested one raising [OSError] and then the default one. *)
Definition loads (name : option string) (fell_back : bool) (nlp : Language)
  : list Event :=
  if fell_back
  then [ EvSpacyLoad name (inl OSError);
         EvSpacyLoad (Some default_model) (inr nlp) ]
  else [ EvSpacyLoad name (inr nlp) ].

(** The lines a call that returns has logged. *)
Definition log_lines (name : option string) (installed fell_back : bool)
    (configuration : option string) (acc : list Individual)
  : list (Level * LogMsg) :=
  (Info, LoadingModel name)
  :: (if installed then [] else [(Info, InstallingDefaultModel)])
  ++ (if fell_back then [(Warning, ModelNotFound name)] else [])
  ++ (Info, BuildingDocs)
  :: (Info, match configuration with
            | Some path => SettingUpConfig path
            | None => ExistingConfig
            end)
  :: (Info, StartingExecution)
  :: (Info, ExecutionReport)
  :: (Info, BestIndividuals)
  :: map (fun i => (Info, BestIndividual i)) acc.

End Model.
End Api.

(** ** A small world to run [find_patterns] in *)

Module Demo.
Import Py Api.

(** The state of the collaborators: installed distributions and models,
    the configured number of runs, a clock, the best individuals the
    coming runs will find, the times recorded and the log. *)
Record World : Type := mkWorld {
  packages : list string;
  models : list string;
  configured_runs : Z;
  clock : Z;
  pending : list Individual;
  times : list Z;
  logged : list (Level * LogMsg)
}.

#[global] Instance types : Externals := {|
  Language := string;
  Doc := string;
  Grammar := list string;
  Config := Z;
  Population := nat;
  Time := Z;
  Ext := World
|}.

Definition ok {A} (a : A) (h : Heap) : (exn + A) * Heap := (inr a, h).

Definition with_ext (f : World -> World) (h : Heap) : Heap :=
  {| most_fitted_accumulator := most_fitted_accumulator h; ext := f (ext h) |}.

Definition install (name : string) (w : World) : World :=
  mkWorld ("en-core-web-sm"%string :: packages w) (name :: models w)
          (configured_runs w) (clock w) (pending w) (times w) (logged w).

Definition tick (w : World) : World :=
  mkWorld (packages w) (models w) (configured_runs w) (clock w + 1)
          (pending w) (times w) (logged w).

Definition record_time (dt : Z) (w : World) : World :=
  mkWorld (packages w) (models w) (configured_runs w) (clock w)
          (pending w) (times w ++ [dt]) (logged w).

Definition record_log (lvl : Level) (msg : LogMsg) (w : World) : World :=
  mkWorld (packages w) (models w) (configured_runs w) (clock w)
          (pending w) (times w) (logged w ++ [(lvl, msg)]).

Definition drop_pending (w : World) : World :=
  mkWorld (packages w) (models w) (configured_runs w) (clock w)
          (tl (pending w)) (times w) (logged w).

Definition load (name : option string) (h : Heap) : (exn + string) * Heap :=
  match name with
  | Some n => if existsb (String.eqb n) (models (ext h))
              then (inr n, h) else (inl OSError, h)
  | None => (inl OSError, h)
  end.

(** A run finds the next pending individual and hands it to the
    accumulator. *)
Definition evolve_ (p : nat) (h : Heap) : (exn + unit) * Heap :=
  match pending (ext h) with
  | [] => (inr tt, h)
  | i :: _ =>
      (inr tt, {| most_fitted_accumulator := most_fitted_accumulator h ++ [i];
                  ext := drop_pending (ext h) |})
  end.

#[global] Instance collaborators : Collaborators := {|
  working_set := fun h => packages (ext h);
  spacy_download := fun name h => (inr tt, with_ext (install name) h);
  spacy_load := load;
  nlp_call := fun _ sample => ok sample;
  Config_new := fun _ h => (inr (configured_runs (ext h)), h);
  max_runs := fun c => c;
  Stats_new := fun h => (inr tt, {| most_fitted_accumulator := []; ext := ext h |});
  dgg := fun docs => ok docs;
  monotonic := fun h => (clock (ext h), with_ext tick h);
  time_sub := Z.sub;
  Population_new := fun _ _ h => (inr (length (most_fitted_accumulator h)), h);
  evolve := evolve_;
  add_time := fun dt h => (inr tt, with_ext (record_time dt) h);
  calculate_metrics := ok tt;
  persist := ok tt;
  log := record_log
|}.

Definition pattern (attr value : string) : Fenotype := [[(attr, value)]].

Definition i1 : Individual :=
  mkIndividual [false; true] (pattern "POS" "DET") (1 # 2).
Definition i2 : Individual :=
  mkIndividual [true; true] (pattern "LOWER" "a") 1.
Definition i3 : Individual :=
  mkIndividual [true; false] (pattern "IS_PUNCT" "True") (2 # 4).

(** The default model is installed; three runs are configured. *)
Definition world (runs : Z) : World :=
  mkWorld ["spacy"; "en-core-web-sm"]%string ["en_core_web_sm"%string] runs 0
          [i1; i2; i3] [] [].

Definition start (runs : Z) : State :=
  {| heap := {| most_fitted_accumulator := []; ext := world runs |};
     calls := [] |}.

Definition samples : list string :=
  ["I am a raccoon!"; "You are a cat!"; "Is she a rabbit?"; "This is a test"]%string.

(** A call that asks for a model that is not installed. *)
Definition missing : option string := Some "xx_missing_model"%string.

Definition outcome (runs : Z) : (exn + list (list PyVal)) * State :=
  find_patterns samples None missing (start runs).

(** A world in which the runs find their best individuals in descending
    order of fitness, and in which the default model is not installed. *)
Definition sorted_start : State :=
  {| heap := {| most_fitted_accumulator := [];
                ext := mkWorld ["spacy"%string] [] 3 0 [i2; i1; i3] [] [] |};
     calls := [] |}.

Definition configuration : option string := Some "config.ini"%string.

Definition sorted_outcome : (exn + list (list PyVal)) * State :=
  find_patterns samples configuration (Some "en_core_web_sm"%string)
                sorted_start.
End Demo.

(** ** The population operators *)

Module GE.
Import Py.

(** Modelled from the spec: the seedable random generator of section 5,
    which the sources leave to Python's [random] module.  It is a stream of
    raw draws and a cursor; every draw moves the cursor by one. *)
Record Rng : Type := mkRng {
  stream : nat -> N;
  cursor : nat
}.

(** Modelled from the spec: one raw draw of the generator of section 5,
    absent from the sources. *)
Definition next (g : Rng) : N * Rng :=
  (stream g (cursor g), mkRng (stream g) (S (cursor g))).

(** Modelled from the spec: a uniform draw of an index below [n], absent
    from the sources. *)
Definition randrange (n : nat) (g : Rng) : nat * Rng :=
  let (r, g') := next g in (N.to_nat (r mod N.of_nat n)%N, g').

(** Modelled from the spec: the mode enumerations of section 6, under the
    names the tests import from [settings/literals.py], which is not among
    the sources. *)
Inductive SelectionType : Type := BINARY_TOURNAMENT | K_TOURNAMENT.

(** Modelled from the spec: the recombination modes of section 4.5, step 2
    ([settings/literals.py] is not among the sources). *)
Inductive RecombinationType : Type := RANDOM_ONE_POINT_CROSSOVER.

(** Modelled from the spec: the replacement modes of section 4.5, step 4
    ([settings/literals.py] is not among the sources). *)
Inductive ReplacementType : Type :=
| MU_PLUS_LAMBDA
| MU_LAMBDA_WITH_ELITISM
| MU_LAMBDA_WITHOUT_ELITISM.

(** Modelled from the spec: the scoring modes of section 4.3
    ([settings/literals.py] is not among the sources). *)
Inductive FitnessType : Type := FITNESS_BASIC | FITNESS_FULLMATCH.

(** Modelled from the spec: the configuration surface of section 6, as far
    as the operators read it ([patternomatic/settings/config.py] is not
    among the sources).  A mode that section 7 has checked at setup is
    [None] when its value is not a recognised one. *)
Record Config : Type := mkConfig {
  population_size : nat;
  dna_length : nat;
  p_crossover : Q;
  elite : nat;
  selection_type : SelectionType;
  recombination_type : option RecombinationType;
  replacement_type : option ReplacementType;
  fitness_function_type : option FitnessType
}.

(** Modelled from the spec: the Population of section 4.5
    ([patternomatic/ge/population.py] is not among the sources): its
    configuration, the current generation and the offspring buffer. *)
Record Population : Type := mkPopulation {
  config : Config;
  generation : list Individual;
  offspring : list Individual
}.

(** Modelled from the spec: the [ConfigurationError] of section 7, absent
    from the sources. *)
Definition ConfigurationError : exn := OtherError "ConfigurationError".

Section Operators.
(** The codec and the fitness evaluator of sections 4.2 and 4.3, for the
    grammar, the samples and the fitness mode in use. *)
Context (decode : list bool -> Fenotype) (evaluate : Fenotype -> Q).

(** Modelled from the spec: an Individual of section 4.4 with its
    phenotype decoded and its fitness evaluated
    ([patternomatic/ge/individual.py] is not among the sources). *)
Definition Individual_of (bits : list bool) : Individual :=
  {| genotype := bits;
     fenotype := decode bits;
     fitness_value := evaluate (decode bits) |}.


(** Modelled from the spec: "a genotype of configured length with
    uniformly random bits" (section 4.4), absent from the sources. *)
Fixpoint random_bits (n : nat) (g : Rng) : list bool * Rng :=
  match n with
  | O => ([], g)
  | S n' =>
      let (r, g1) := next g in
      let (bits, g2) := random_bits n' g1 in
      (N.odd r :: bits, g2)
  end.

(** Modelled from the spec: "generation 0 with N randomly generated,
    evaluated Individuals" (section 4.5), absent from the sources. *)
Fixpoint random_individuals (n len : nat) (g : Rng)
  : list Individual * Rng :=
  match n with
  | O => ([], g)
  | S n' =>
      let (bits, g1) := random_bits len g in
      let (rest, g2) := random_individuals n' len g1 in
      (Individual_of bits :: rest, g2)
  end.

(** Modelled from the spec: the setup check of section 7 on the fitness,
    recombination and replacement modes; absent from the sources. *)
Definition recognised (c : Config) : bool :=
  match recombination_type c, replacement_type c, fitness_function_type c with
  | Some _, Some _, Some _ => true
  | _, _, _ => false
  end.

(** Modelled from the spec: the construction of a Population (section
    4.5, initial state; section 7: an unrecognised fitness, recombination
    or replacement mode is a ConfigurationError at setup, the selection
    mode is not looked at), absent from the sources. *)
Definition Population_new (c : Config) (g : Rng)
  : (exn + Population) * Rng :=
  if recognised c then
    let (gen, g') := random_individuals (population_size c) (dna_length c) g in
    (inr {| config := c; generation := gen; offspring := [] |}, g')
  else (inl ConfigurationError, g).

(** Modelled from the spec: a uniform draw of one Individual of the
    generation; drawing from an empty sequence is an [IndexError] as in
    Python.  Absent from the sources. *)
Definition choice (l : list Individual) (g : Rng)
  : (exn + Individual) * Rng :=
  match l with
  | [] => (inl IndexError, g)
  | d :: _ => let (k, g') := randrange (length l) g in (inr (nth k l d), g')
  end.

(** Modelled from the spec: "keep the one with the higher fitness (ties
    broken by ... first-drawn)"; absent from the sources. *)
Definition winner (a b : Individual) : Individual :=
  if lt (fitness_value a) (fitness_value b) then b else a.

(** Modelled from the spec: binary tournament, "repeat N times -- draw
    two Individuals uniformly at random (with replacement) from the
    generation"; absent from the sources. *)
Fixpoint binary_tournament (n : nat) (l : list Individual) (g : Rng)
  : (exn + list Individual) * Rng :=
  match n with
  | O => (inr [], g)
  | S n' =>
      match choice l g with
      | (inl e, g1) => (inl e, g1)
      | (inr a, g1) =>
          match choice l g1 with
          | (inl e, g2) => (inl e, g2)
          | (inr b, g2) =>
              match binary_tournament n' l g2 with
              | (inl e, g3) => (inl e, g3)
              | (inr pool, g3) => (inr (winner a b :: pool), g3)
              end
          end
      end
  end.

(** The mating pool of the tournaments that drew the pairs [draws]. *)
Definition winners (draws : list (Individual * Individual))
  : list Individual :=
  map (fun d => winner (fst d) (snd d)) draws.

(** The individual of [l] that the draw number [k] counted from the state
    [g] of the generator picks: the one at the index that the raw draw gives
    modulo the length of [l]. *)
Definition drawn (l : list Individual) (g : Rng) (k : nat)
  : option Individual :=
  nth_error l (N.to_nat (stream g (cursor g + k) mod N.of_nat (length l))%N).

(** Modelled from the spec: [Population._selection] (section 4.5, step
    1), absent from the sources.  It returns the mating pool; the
    Population it leaves is part of the result. *)
Definition _selection (p : Population) (g : Rng)
  : (exn + list Individual) * Population * Rng :=
  match selection_type (config p) with
  | BINARY_TOURNAMENT =>
      let (r, g') :=
        binary_tournament (population_size (config p)) (generation p) g in
      (r, p, g')
  | K_TOURNAMENT => (inl NotImplementedError, p, g)
  end.




End Operators.
End GE.

(** ** Small populations to run the operators on *)

Module Toy.
Import Py GE.

(** One token per bit, and the share of set bits as fitness. *)
Definition decode (bits : list bool) : Fenotype :=
  map (fun b : bool =>
         [("IS_ALPHA"%string, if b then "True"%string else "False"%string)])
      bits.

Definition evaluate (f : Fenotype) : Q :=
  Z.of_nat (length (filter (fun t => match t with
                                     | [(_, v)] => String.eqb v "True"
                                     | _ => false
                                     end) f))
  # Pos.of_succ_nat (length f).

(** A generator that replays [draws] and then yields zeros. *)
Definition rng_of (draws : list N) : Rng :=
  mkRng (fun k => nth k draws 0%N) 0.

(** A Population configured with k-tournament selection. *)
Definition k_config : Config :=
  mkConfig 4 6 (7 # 10) 1 K_TOURNAMENT
           (Some RANDOM_ONE_POINT_CROSSOVER)
           (Some MU_PLUS_LAMBDA) (Some FITNESS_FULLMATCH).

Definition individuals : list Individual :=
  map (Individual_of decode evaluate)
      [ [true; false; false; false]; [true; true; false; false];
        [false; false; false; false]; [true; true; true; false] ].

Definition even_config (m : ReplacementType) : Config :=
  mkConfig 4 4 (7 # 10) 1 BINARY_TOURNAMENT
           (Some RANDOM_ONE_POINT_CROSSOVER) (Some m) (Some FITNESS_BASIC).

(** Four parents, and the same four individuals as offspring. *)
Definition even_population (m : ReplacementType) : Population :=
  mkPopulation (even_config m) individuals individuals.

Definition even_rng : Rng := rng_of [3; 1; 0; 2; 2; 2; 1; 3; 0; 2]%N.
End Toy.

(** * Properties *)

(** ** The built-ins *)

Section SortFacts.
Import Py.
Context {A : Type} (key : A -> Q).

Lemma lt_true_iff (x y : Q) : Py.lt x y = true <-> (x < y)%Q.
Proof.
  unfold Py.lt. rewrite Qlt_alt.
  destruct (x ?= y)%Q; split; intro H; congruence.
Qed.

Lemma lt_false_iff (x y : Q) : Py.lt x y = false <-> (y <= x)%Q.
Proof.
  split; intro H.
  - apply Qnot_lt_le. intro L. apply lt_true_iff in L. congruence.
  - destruct (Py.lt x y) eqn:E; [|reflexivity].
    apply lt_true_iff in E. exfalso. exact (Qle_not_lt _ _ H E).
Qed.

Lemma insert_perm (x : A) (l : list A) :
  Permutation (Py.insert key x l) (x :: l).
Proof.
  induction l as [|y t IH]; simpl.
  - apply Permutation_refl.
  - destruct (Py.lt (key y) (key x)).
    + eapply perm_trans; [apply perm_skip, IH | apply perm_swap].
    + apply Permutation_refl.
Qed.

Lemma stable_sort_perm (l : list A) : Permutation (Py.stable_sort key l) l.
Proof.
  induction l as [|x t IH]; simpl.
  - constructor.
  - eapply perm_trans; [apply insert_perm | apply perm_skip, IH].
Qed.

Lemma insert_sorted (x : A) (l : list A) :
  StronglySorted (ascending key) l -> StronglySorted (ascending key) (Py.insert key x l).
Proof.
  induction 1 as [|y t St IH Hy]; simpl.
  - repeat constructor.
  - destruct (Py.lt (key y) (key x)) eqn:E.
    + constructor; [exact IH|].
      eapply Permutation_Forall; [apply Permutation_sym, insert_perm|].
      constructor; [|exact Hy].
      apply lt_true_iff in E. unfold ascending. apply Qlt_le_weak, E.
    + apply lt_false_iff in E.
      constructor; [constructor; assumption|].
      constructor; [exact E|].
      eapply Forall_impl; [|exact Hy].
      intros z Hz. unfold ascending in *. eapply Qle_trans; eassumption.
Qed.

Lemma stable_sort_sorted (l : list A) :
  StronglySorted (ascending key) (Py.stable_sort key l).
Proof.
  induction l as [|x t IH]; simpl; [constructor | apply insert_sorted, IH].
Qed.

Lemma insert_with_key (q : Q) (x : A) (l : list A) :
  with_key key q (Py.insert key x l) = with_key key q (x :: l).
Proof.
  unfold with_key. induction l as [|y t IH]; [reflexivity|].
  simpl. destruct (Py.lt (key y) (key x)) eqn:E; [|reflexivity].
  simpl. rewrite IH. simpl.
  destruct (Py.eq (key x) q) eqn:Ex; [|reflexivity].
  destruct (Py.eq (key y) q) eqn:Ey; [|reflexivity].
  exfalso. apply lt_true_iff in E.
  apply Qeq_bool_iff in Ex. apply Qeq_bool_iff in Ey.
  rewrite Ex, Ey in E. exact (Qlt_irrefl _ E).
Qed.

Lemma stable_sort_with_key (q : Q) (l : list A) :
  with_key key q (Py.stable_sort key l) = with_key key q l.
Proof.
  induction l as [|x t IH]; [reflexivity|].
  simpl. rewrite insert_with_key. unfold with_key in *. simpl.
  rewrite IH. reflexivity.
Qed.

Lemma with_key_rev (q : Q) (l : list A) :
  with_key key q (rev l) = rev (with_key key q l).
Proof.
  unfold with_key. induction l as [|x t IH]; [reflexivity|].
  simpl. rewrite filter_app, IH. simpl.
  destruct (Py.eq (key x) q); simpl; [reflexivity | apply app_nil_r].
Qed.

Lemma sorted_rev (l : list A) :
  StronglySorted (ascending key) l -> StronglySorted (descending key) (rev l).
Proof.
  induction 1 as [|x t St IH Hx]; simpl; [constructor|].
  assert (G : forall m, StronglySorted (descending key) m ->
              Forall (fun z => (descending key) z x) m ->
              StronglySorted (descending key) (m ++ [x])).
  { induction 1 as [|z m Sm IHm Hz]; intros Hm; simpl.
    - repeat constructor.
    - inversion Hm; subst. constructor; [apply IHm; assumption|].
      apply Forall_app. split; [exact Hz|]. repeat constructor. assumption. }
  apply G; [exact IH|].
  apply Forall_rev. exact Hx.
Qed.

(** [sort(key=key, reverse=True)] permutes the list, leaves it in
    (descending key) key order and keeps equal keys in their former order. *)
Lemma list_sort_reverse_perm (l : list A) :
  Permutation (Py.list_sort key true l) l.
Proof.
  unfold Py.list_sort.
  eapply perm_trans; [apply Permutation_sym, Permutation_rev|].
  eapply perm_trans; [apply stable_sort_perm|].
  apply Permutation_sym, Permutation_rev.
Qed.

Lemma list_sort_reverse_sorted (l : list A) :
  StronglySorted (descending key) (Py.list_sort key true l).
Proof. unfold Py.list_sort. apply sorted_rev, stable_sort_sorted. Qed.

Lemma list_sort_reverse_stable (q : Q) (l : list A) :
  with_key key q (Py.list_sort key true l) = with_key key q l.
Proof.
  unfold Py.list_sort.
  rewrite with_key_rev, stable_sort_with_key, with_key_rev.
  apply rev_involutive.
Qed.
End SortFacts.

Section ZipFacts.
Import Py.
Context {A B : Type} (f g : B -> A).

Lemma heads_two_columns (l : list B) :
  heads (map (fun i => [f i; g i]) l) = Some (map f l).
Proof.
  induction l as [|x t IH]; simpl; [reflexivity|]. rewrite IH. reflexivity.
Qed.

Lemma heads_one_column (l : list B) :
  heads (map (fun i => [g i]) l) = Some (map g l).
Proof.
  induction l as [|x t IH]; simpl; [reflexivity|]. rewrite IH. reflexivity.
Qed.

(** Transposing rows of two columns gives the two columns, or nothing when
    there is no row. *)
Lemma zip_star_two_columns (l : list B) :
  zip_star (map (fun i => [f i; g i]) l) =
  match l with
  | [] => []
  | _ :: _ => [map f l; map g l]
  end.
Proof.
  destruct l as [|x t]; [reflexivity|].
  remember (x :: t) as l eqn:El.
  assert (E : zip_star (map (fun i => [f i; g i]) l)
              = zip_steps 2 (map (fun i => [f i; g i]) l))
    by (subst l; reflexivity).
  rewrite E. cbn [zip_steps].
  rewrite heads_two_columns, map_map. cbn [tl].
  rewrite heads_one_column.
  subst l. reflexivity.
Qed.
End ZipFacts.

(** ** The monad and the phases of [find_patterns] *)

Section ApiFacts.
Import Py Api.
Context {X : Externals} {C : Collaborators}.

Lemma bind_inr {A B} (m : M A) (k : A -> M B) s v s' :
  bind m k s = (inr v, s') ->
  exists a s1, m s = (inr a, s1) /\ k a s1 = (inr v, s').
Proof.
  unfold bind. destruct (m s) as [[e|a] s1]; intro H; [discriminate|].
  exists a, s1. split; [reflexivity | exact H].
Qed.

Lemma bind_eq {A B} (m : M A) (k : A -> M B) s a s1 :
  m s = (inr a, s1) -> bind m k s = k a s1.
Proof. unfold bind. intros ->. reflexivity. Qed.

Lemma extends_refl s : extends s s [].
Proof. unfold extends. symmetry. apply app_nil_r. Qed.

Lemma extends_trans s s1 s2 t1 t2 :
  extends s s1 t1 -> extends s1 s2 t2 -> extends s s2 (t1 ++ t2).
Proof. unfold extends. intros H1 H2. rewrite H2, H1. symmetry. apply app_assoc. Qed.

Lemma ret_inr {A} (a v : A) s s' : ret a s = (inr v, s') -> v = a /\ s' = s.
Proof. unfold ret. intro H. inversion H. split; reflexivity. Qed.

Lemma read_inr {A} (f : Heap -> A) s v s' :
  read f s = (inr v, s') -> v = f (heap s) /\ s' = s.
Proof. unfold read. intro H. inversion H. split; reflexivity. Qed.

Lemma invoke_extends {A} ev (op : Op A) s r s' :
  invoke ev op s = (r, s') -> extends s s' [ev r].
Proof.
  unfold invoke, extends. destruct (op (heap s)) as [r0 h]. intro H.
  inversion H; subst. reflexivity.
Qed.

Lemma log_extends lvl msg s r s' :
  log_ lvl msg s = (r, s') -> r = inr tt /\ extends s s' [EvLog lvl msg].
Proof. unfold log_, extends. intro H. inversion H; subst. split; reflexivity. Qed.

Lemma log_accumulator lvl msg s r s' :
  log_ lvl msg s = (r, s') ->
  most_fitted_accumulator (heap s') = most_fitted_accumulator (heap s).
Proof. unfold log_. intro H. inversion H; subst. reflexivity. Qed.

Lemma monotonic_extends s t s' :
  monotonic_ s = (inr t, s') -> extends s s' [EvMonotonic t].
Proof.
  unfold monotonic_, extends. destruct (monotonic (heap s)) as [t0 h].
  intro H. inversion H; subst. reflexivity.
Qed.

Lemma plain_quiet t : forallb plain t = true -> forallb quiet t = true.
Proof.
  induction t as [|e t IH]; [reflexivity|]. simpl.
  rewrite !andb_true_iff. unfold plain. rewrite andb_true_iff.
  intros [[Hq _] Ht]. split; [exact Hq | apply IH, Ht].
Qed.

Lemma plain_no_config t : forallb plain t = true -> filter is_config t = [].
Proof.
  induction t as [|e t IH]; [reflexivity|]. simpl.
  rewrite andb_true_iff. unfold plain at 1. rewrite andb_true_iff.
  intros [[_ Hc] Ht]. apply negb_true_iff in Hc. rewrite Hc. apply IH, Ht.
Qed.

(** Lines 56-62 append log and download events only. *)
Lemma ensure_default_model_trace name s s' :
  ensure_default_model name s = (inr tt, s') ->
  exists t, extends s s' t /\ forallb plain t = true.
Proof.
  unfold ensure_default_model. intro H.
  apply bind_inr in H. destruct H as (u & s1 & H1 & H).
  apply log_extends in H1. destruct H1 as [_ E1].
  apply bind_inr in H. destruct H as (ws & s2 & H2 & H).
  apply read_inr in H2. destruct H2 as [-> ->].
  destruct (negb (existsb (String.eqb "en-core-web-sm") (working_set (heap s1)))).
  - apply bind_inr in H. destruct H as (u' & s3 & H3 & H).
    apply log_extends in H3. destruct H3 as [_ E3].
    apply invoke_extends in H.
    eexists. split.
    + eapply extends_trans; [exact E1|]. eapply extends_trans; eassumption.
    + reflexivity.
  - apply ret_inr in H. destruct H as [_ ->].
    eexists. split; [exact E1 | reflexivity].
Qed.

(** Lines 64-72 append one or two load events and at most a warning. *)
Lemma load_language_model_trace name s nlp s' :
  load_language_model name s = (inr nlp, s') ->
  exists t, extends s s' t /\ forallb plain t = true.
Proof.
  unfold load_language_model, try_except_OSError. intro H.
  destruct (invoke (EvSpacyLoad name) (spacy_load name) s) as [r s1] eqn:L.
  apply invoke_extends in L.
  destruct r as [e|l].
  - destruct e; try discriminate.
    apply bind_inr in H. destruct H as (u & s2 & H2 & H).
    apply log_extends in H2. destruct H2 as [_ E2].
    apply invoke_extends in H.
    eexists. split.
    + eapply extends_trans; [exact L|]. eapply extends_trans; eassumption.
    + reflexivity.
  - inversion H; subst. eexists. split; [exact L | reflexivity].
Qed.

(** Line 75 appends one annotation call per sample. *)
Lemma comprehension_nlp_trace nlp samples s docs s' :
  comprehension (fun sample => invoke (EvNlp nlp sample) (nlp_call nlp sample))
                samples s = (inr docs, s') ->
  exists t, extends s s' t /\ forallb plain t = true.
Proof.
  revert s docs s'. induction samples as [|x l IH]; intros s docs s' H; simpl in H.
  - apply ret_inr in H. destruct H as [_ ->].
    exists []. split; [apply extends_refl | reflexivity].
  - apply bind_inr in H. destruct H as (d & s1 & H1 & H).
    apply invoke_extends in H1.
    apply bind_inr in H. destruct H as (ds & s2 & H2 & H).
    apply IH in H2. destruct H2 as (t & E2 & P2).
    apply ret_inr in H. destruct H as [_ ->].
    eexists. split; [eapply extends_trans; eassumption|].
    simpl. exact P2.
Qed.

(** Lines 77-84 append exactly one construction of the configuration. *)
Lemma setup_configuration_trace configuration s config s' :
  setup_configuration configuration s = (inr config, s') ->
  exists t, extends s s' t /\ forallb quiet t = true /\
            filter is_config t = [EvConfig configuration (inr config)].
Proof.
  unfold setup_configuration. intro H. destruct configuration as [path|].
  - apply bind_inr in H. destruct H as (u & s1 & H1 & H).
    apply log_extends in H1. destruct H1 as [_ E1].
    apply invoke_extends in H.
    eexists. split; [eapply extends_trans; eassumption|].
    split; reflexivity.
  - apply bind_inr in H. destruct H as (c & s1 & H1 & H).
    apply invoke_extends in H1.
    apply bind_inr in H. destruct H as (u & s2 & H2 & H).
    apply log_extends in H2. destruct H2 as [_ E2].
    apply ret_inr in H. destruct H as [-> ->].
    eexists. split; [eapply extends_trans; eassumption|].
    split; reflexivity.
Qed.

(** Lines 92-97: a completed iteration appends the six calls of a run. *)
Lemma run_trace docs bnf_g s s' :
  run docs bnf_g s = (inr tt, s') ->
  exists r, extends s s' (run_events docs bnf_g r).
Proof.
  unfold run. intro H.
  apply bind_inr in H. destruct H as (t0 & s1 & H1 & H).
  apply monotonic_extends in H1.
  apply bind_inr in H. destruct H as (p & s2 & H2 & H).
  apply invoke_extends in H2.
  apply bind_inr in H. destruct H as ([] & s3 & H3 & H).
  apply invoke_extends in H3.
  apply bind_inr in H. destruct H as (t1 & s4 & H4 & H).
  apply monotonic_extends in H4.
  apply bind_inr in H. destruct H as ([] & s5 & H5 & H).
  apply invoke_extends in H5.
  apply invoke_extends in H.
  exists (mkRun t0 p t1). unfold run_events. simpl.
  unfold extends in *. rewrite H, H5, H4, H3, H2, H1.
  rewrite <- !app_assoc. reflexivity.
Qed.

(** Lines 91-97: the loop appends one block of run events per element of
    the range. *)
Lemma for_each_run_trace {A} (l : list A) docs bnf_g s s' :
  for_each l (fun _ => run docs bnf_g) s = (inr tt, s') ->
  exists runs, length runs = length l /\
               extends s s' (concat (map (run_events docs bnf_g) runs)).
Proof.
  revert s s'. induction l as [|x l IH]; intros s s' H; simpl in H.
  - apply ret_inr in H. destruct H as [_ ->].
    exists []. split; [reflexivity | apply extends_refl].
  - apply bind_inr in H. destruct H as ([] & s1 & H1 & H).
    apply run_trace in H1. destruct H1 as (r & E1).
    apply IH in H. destruct H as (runs & L & E).
    exists (r :: runs). split; [simpl; congruence|].
    cbn [map concat]. eapply extends_trans; eassumption.
Qed.

Lemma range_length (n : Z) : length (range 0 n) = Z.to_nat n.
Proof.
  unfold range. rewrite length_map, length_seq. rewrite Z.sub_0_r. reflexivity.
Qed.
End ApiFacts.

Section ReportFacts.
Import Py Api.
Context {X : Externals} {C : Collaborators}.

(** The loop of lines 104-105 logs every individual and leaves the
    accumulator alone. *)
Lemma for_each_log_total (l : list Individual) (s : State) :
  exists s',
    for_each l (fun i => log_ Info (BestIndividual i)) s = (inr tt, s') /\
    most_fitted_accumulator (heap s') = most_fitted_accumulator (heap s) /\
    extends s s' (map (fun i => EvLog Info (BestIndividual i)) l).
Proof.
  revert s. induction l as [|i l IH]; intro s; simpl.
  - exists s. split; [reflexivity|]. split; [reflexivity | apply extends_refl].
  - destruct (log_ Info (BestIndividual i) s) as [r s1] eqn:L.
    pose proof (log_accumulator _ _ _ _ _ L) as A1.
    apply log_extends in L as L'. destruct L' as [-> E1].
    destruct (IH s1) as (s' & R & A2 & E2).
    exists s'. split; [rewrite (bind_eq _ _ _ _ _ L); exact R|].
    split; [congruence|].
    change (extends s s' ([EvLog Info (BestIndividual i)]
                            ++ map (fun i => EvLog Info (BestIndividual i)) l)).
    eapply extends_trans; eassumption.
Qed.

(** Lines 102-109 never raise: they return the transposed rows of the
    sorted accumulator and leave the accumulator sorted. *)
Lemma best_individuals_spec (s : State) :
  exists s',
    best_individuals s
    = (inr (zip_star (rows (list_sort fitness_value true
                                      (most_fitted_accumulator (heap s))))), s') /\
    most_fitted_accumulator (heap s')
    = list_sort fitness_value true (most_fitted_accumulator (heap s)) /\
    exists t, extends s s' t /\ forallb plain t = true.
Proof.
  unfold best_individuals.
  destruct (log_ Info BestIndividuals s) as [r s1] eqn:L.
  pose proof (log_accumulator _ _ _ _ _ L) as A1.
  apply log_extends in L as L'. destruct L' as [-> E1].
  rewrite (bind_eq _ _ _ _ _ L).
  set (sorted := list_sort fitness_value true (most_fitted_accumulator (heap s))).
  set (s2 := {| heap := {| most_fitted_accumulator := sorted; ext := ext (heap s1) |};
                calls := calls s1 |}).
  assert (S2 : sort_accumulator s1 = (inr tt, s2)).
  { unfold sort_accumulator, s2, sorted. rewrite A1. reflexivity. }
  rewrite (bind_eq _ _ _ _ _ S2).
  assert (R2 : read most_fitted_accumulator s2 = (inr sorted, s2)) by reflexivity.
  rewrite (bind_eq _ _ _ _ _ R2).
  destruct (for_each_log_total sorted s2) as (s3 & F & A3 & E3).
  rewrite (bind_eq _ _ _ _ _ F).
  assert (R3 : read most_fitted_accumulator s3 = (inr sorted, s3)).
  { unfold read. rewrite A3. reflexivity. }
  rewrite (bind_eq _ _ _ _ _ R3).
  exists s3. split; [reflexivity|]. split; [exact A3|].
  exists ([EvLog Info BestIndividuals]
            ++ map (fun i => EvLog Info (BestIndividual i)) sorted).
  split.
  - eapply extends_trans; [exact E1|]. exact E3.
  - simpl. clear. induction sorted as [|i l IH]; [reflexivity | exact IH].
Qed.

(** A call that returns has passed line 100, and its value and final
    accumulator are those of lines 102-109. *)
Lemma find_patterns_inr samples configuration name s v s' :
  find_patterns samples configuration name s = (inr v, s') ->
  exists s1,
    execution samples configuration name s = (inr tt, s1) /\
    most_fitted_accumulator (heap s')
    = list_sort fitness_value true (most_fitted_accumulator (heap s1)) /\
    v = zip_star (rows (most_fitted_accumulator (heap s'))) /\
    exists t, extends s1 s' t /\ forallb plain t = true.
Proof.
  unfold find_patterns. intro H.
  apply bind_inr in H. destruct H as ([] & s1 & E & B).
  exists s1. split; [exact E|].
  destruct (best_individuals_spec s1) as (s2 & R & A2 & T).
  rewrite R in B. inversion B; subst. rewrite A2.
  split; [reflexivity|]. split; [reflexivity | exact T].
Qed.

Lemma rows_columns (acc : list Individual) : zip_star (rows acc) = columns acc.
Proof.
  unfold rows, columns.
  apply (zip_star_two_columns (fun i => PyFenotype (fenotype i))
                              (fun i => PyFloat (fitness_value i))).
Qed.
End ReportFacts.

(** ** [find_patterns] *)

Section FindPatterns.
Import Py Api.
Context {X : Externals} {C : Collaborators}.

(** The trace of a call that returns: quiet calls, the [dgg] call, one
    block of run events per element of the range, quiet calls. *)
Lemma find_patterns_trace samples configuration name s v s' :
  find_patterns samples configuration name s = (inr v, s') ->
  exists config docs bnf_g runs pre post,
    extends s s'
      (pre ++ EvDgg docs (inr bnf_g) :: EvLog Info StartingExecution
           :: concat (map (run_events docs bnf_g) runs) ++ post) /\
    forallb quiet pre = true /\
    forallb quiet post = true /\
    filter is_config pre = [EvConfig configuration (inr config)] /\
    length runs = Z.to_nat (max_runs config).
Proof.
  intro H. apply find_patterns_inr in H.
  destruct H as (s1 & E & _ & _ & tp & Ep & Pp).
  unfold execution in E.
  apply bind_inr in E. destruct E as ([] & sa & Ha & E).
  apply ensure_default_model_trace in Ha. destruct Ha as (ta & Ea & Pa).
  apply bind_inr in E. destruct E as (nlp & sb & Hb & E).
  apply load_language_model_trace in Hb. destruct Hb as (tb & Eb & Pb).
  unfold execute_runs in E.
  apply bind_inr in E. destruct E as ([] & sc & Hc & E).
  apply log_extends in Hc. destruct Hc as [_ Ec].
  apply bind_inr in E. destruct E as (docs & sd & Hd & E).
  apply comprehension_nlp_trace in Hd. destruct Hd as (td & Ed & Pd).
  apply bind_inr in E. destruct E as (config & se & He & E).
  apply setup_configuration_trace in He. destruct He as (te & Ee & Qe & Fe).
  apply bind_inr in E. destruct E as ([] & sf & Hf & E).
  apply invoke_extends in Hf.
  apply bind_inr in E. destruct E as (bnf_g & sg & Hg & E).
  apply invoke_extends in Hg.
  apply bind_inr in E. destruct E as ([] & sh & Hh & E).
  apply log_extends in Hh. destruct Hh as [_ Eh].
  apply bind_inr in E. destruct E as ([] & si & Hi & E).
  apply for_each_run_trace in Hi. destruct Hi as (runs & Lr & Ei).
  apply bind_inr in E. destruct E as ([] & sj & Hj & E).
  apply log_extends in Hj. destruct Hj as [_ Ej].
  apply invoke_extends in E.
  exists config, docs, bnf_g, runs.
  exists (ta ++ tb ++ [EvLog Info BuildingDocs] ++ td ++ te ++ [EvStats (inr tt)]).
  exists ([EvLog Info ExecutionReport; EvPersist (inr tt)] ++ tp).
  split; [|split; [|split; [|split]]].
  - unfold extends in *.
    rewrite Ep, E, Ej, Ei, Eh, Hg, Hf, Ee, Ed, Ec, Eb, Ea.
    repeat rewrite <- app_assoc. simpl. repeat rewrite <- app_assoc.
    reflexivity.
  - rewrite !forallb_app. rewrite (plain_quiet _ Pa), (plain_quiet _ Pb).
    rewrite (plain_quiet _ Pd), Qe. reflexivity.
  - rewrite forallb_app, (plain_quiet _ Pp). reflexivity.
  - rewrite !filter_app.
    rewrite (plain_no_config _ Pa), (plain_no_config _ Pb).
    rewrite (plain_no_config _ Pd), Fe. reflexivity.
  - rewrite Lr. apply range_length.
Qed.

Lemma quiet_filter (f : Event -> bool) (t : list Event) :
  (forall e, f e = true -> quiet e = false) ->
  forallb quiet t = true -> filter f t = [].
Proof.
  intros Hf. induction t as [|e t IH]; [reflexivity|]. simpl.
  rewrite andb_true_iff. intros [He Ht].
  destruct (f e) eqn:E; [|apply IH, Ht].
  apply Hf in E. congruence.
Qed.

Lemma filter_runs (f : Event -> bool) (pick : RunRecord -> list Event)
    docs bnf_g (runs : list RunRecord) :
  (forall r, filter f (run_events docs bnf_g r) = pick r) ->
  filter f (concat (map (run_events docs bnf_g) runs))
  = concat (map pick runs).
Proof.
  intro H. induction runs as [|r runs IH]; [reflexivity|].
  cbn [map concat]. rewrite filter_app, H, IH. reflexivity.
Qed.

Lemma concat_singletons {A B} (f : A -> B) (l : list A) :
  concat (map (fun a => [f a]) l) = map f l.
Proof. induction l as [|a l IH]; [reflexivity|]. simpl. rewrite IH. reflexivity. Qed.

Lemma concat_nils {A B} (l : list A) :
  concat (map (fun _ : A => @nil B) l) = [].
Proof. induction l as [|a l IH]; [reflexivity | exact IH]. Qed.

(** C2.  A call of [find_patterns] that returns has appended to the trace:
    calls that build no grammar and run nothing (among them the one
    construction of the configuration), then the single [dgg] call, then
    one block per element of [range(0, config.max_runs)] -- that is
    [max_runs] blocks, none when it is negative -- each made of a clock
    reading, the construction of a Population from the same documents and
    the same grammar, its [evolve], a second clock reading, one [add_time]
    of the difference and [calculate_metrics]; and then again calls that
    build no grammar and run nothing.  So the trace holds one [dgg] call
    and, per block, one Population, one [evolve] and one [add_time]. *)
Theorem find_patterns_runs samples configuration name s v s' :
  find_patterns samples configuration name s = (inr v, s') ->
  exists config docs bnf_g runs pre post t,
    extends s s' t /\
    t = pre ++ EvDgg docs (inr bnf_g) :: EvLog Info StartingExecution
            :: concat (map (run_events docs bnf_g) runs) ++ post /\
    forallb quiet pre = true /\
    forallb quiet post = true /\
    filter is_config pre = [EvConfig configuration (inr config)] /\
    length runs = Z.to_nat (max_runs config) /\
    filter is_dgg t = [EvDgg docs (inr bnf_g)] /\
    filter is_population t
    = map (fun r => EvPopulation docs bnf_g (inr (run_population r))) runs /\
    filter is_evolve t
    = map (fun r => EvEvolve (run_population r) (inr tt)) runs /\
    filter is_add_time t
    = map (fun r => EvAddTime (time_sub (run_end r) (run_start r)) (inr tt))
          runs.
Proof.
  intro H. apply find_patterns_trace in H.
  destruct H as (config & docs & bnf_g & runs & pre & post & E & Qa & Qb & Fc & L).
  exists config, docs, bnf_g, runs, pre, post. eexists.
  split; [exact E|]. split; [reflexivity|].
  split; [exact Qa|]. split; [exact Qb|]. split; [exact Fc|]. split; [exact L|].
  split; [|split; [|split]].
  - rewrite filter_app. cbn [filter is_dgg]. rewrite filter_app.
    rewrite (quiet_filter is_dgg pre), (quiet_filter is_dgg post); trivial;
      try (intros [] He; try discriminate He; reflexivity).
    rewrite (filter_runs is_dgg (fun _ => [])) by reflexivity.
    rewrite concat_nils. reflexivity.
  - rewrite filter_app. cbn [filter is_population]. rewrite filter_app.
    rewrite (quiet_filter is_population pre), (quiet_filter is_population post);
      trivial; try (intros [] He; try discriminate He; reflexivity).
    rewrite (filter_runs is_population
               (fun r => [EvPopulation docs bnf_g (inr (run_population r))]))
      by reflexivity.
    rewrite concat_singletons, app_nil_r. reflexivity.
  - rewrite filter_app. cbn [filter is_evolve]. rewrite filter_app.
    rewrite (quiet_filter is_evolve pre), (quiet_filter is_evolve post);
      trivial; try (intros [] He; try discriminate He; reflexivity).
    rewrite (filter_runs is_evolve
               (fun r => [EvEvolve (run_population r) (inr tt)]))
      by reflexivity.
    rewrite concat_singletons, app_nil_r. reflexivity.
  - rewrite filter_app. cbn [filter is_add_time]. rewrite filter_app.
    rewrite (quiet_filter is_add_time pre), (quiet_filter is_add_time post);
      trivial; try (intros [] He; try discriminate He; reflexivity).
    rewrite (filter_runs is_add_time
               (fun r => [EvAddTime (time_sub (run_end r) (run_start r)) (inr tt)]))
      by reflexivity.
    rewrite concat_singletons, app_nil_r. reflexivity.
Qed.

(** C9.  When the installation step has passed and loading the requested
    model raises [OSError], the error is not passed on: after a warning the
    default model [en_core_web_sm] is loaded, and once that load has
    returned a model the call goes on with it, as lines 74-109 have it. *)
Theorem find_patterns_fallback samples configuration name s s1 h2 nlp h3 :
  ensure_default_model name s = (inr tt, s1) ->
  spacy_load name (heap s1) = (inl OSError, h2) ->
  spacy_load (Some "en_core_web_sm"%string)
             {| most_fitted_accumulator := most_fitted_accumulator h2;
                ext := log Warning (ModelNotFound name) (ext h2) |}
  = (inr nlp, h3) ->
  let s3 := {| heap := h3;
               calls := calls s1
                        ++ [ EvSpacyLoad name (inl OSError);
                             EvLog Warning (ModelNotFound name);
                             EvSpacyLoad (Some "en_core_web_sm"%string) (inr nlp) ] |} in
  load_language_model name s1 = (inr nlp, s3) /\
  find_patterns samples configuration name s
  = bind (execute_runs nlp samples configuration) (fun _ => best_individuals) s3.
Proof.
  intros He Hl Hd s3.
  assert (L : load_language_model name s1 = (inr nlp, s3)).
  { unfold load_language_model, try_except_OSError, invoke. rewrite Hl.
    unfold bind, log_. cbn [heap calls]. unfold default_model. rewrite Hd.
    unfold s3. repeat rewrite <- app_assoc. reflexivity. }
  split; [exact L|].
  unfold find_patterns, execution.
  unfold bind at 1 2. rewrite He.
  unfold bind at 1. rewrite L. reflexivity.
Qed.

(** C10.  When the accumulator is empty as [find_patterns] returns, the
    value returned is the empty list. *)
Theorem find_patterns_empty samples configuration name s v s' :
  find_patterns samples configuration name s = (inr v, s') ->
  most_fitted_accumulator (heap s') = [] ->
  v = [].
Proof.
  intros H E. apply find_patterns_inr in H.
  destruct H as (s1 & _ & _ & -> & _). rewrite E. reflexivity.
Qed.

(** C1, as amended.  A call of [find_patterns] that returns has passed
    line 100 with some accumulator; the accumulator it leaves is a
    permutation of that one in descending order of fitness, and the value
    returned is the empty list when the accumulator is empty and otherwise
    a list of two tuples: the phenotypes and the fitness values of the
    accumulator's individuals, each in the accumulator's order. *)
Theorem find_patterns_columns samples configuration name s v s' :
  find_patterns samples configuration name s = (inr v, s') ->
  exists s1,
    execution samples configuration name s = (inr tt, s1) /\
    Permutation (most_fitted_accumulator (heap s'))
                (most_fitted_accumulator (heap s1)) /\
    StronglySorted (descending fitness_value)
                   (most_fitted_accumulator (heap s')) /\
    v = columns (most_fitted_accumulator (heap s')).
Proof.
  intro H. apply find_patterns_inr in H.
  destruct H as (s1 & E & A & -> & _).
  exists s1. split; [exact E|]. rewrite A.
  split; [apply list_sort_reverse_perm|].
  split; [apply list_sort_reverse_sorted | apply rows_columns].
Qed.

(** C8.  A call of [find_patterns] that returns has passed line 100 with
    some accumulator; the accumulator it leaves, in whose order the
    returned tuples list the individuals, is in descending order of
    fitness, and for every fitness value the individuals with that fitness
    stand in it in the order they had in the accumulator before. *)
Theorem find_patterns_stable samples configuration name s v s' :
  find_patterns samples configuration name s = (inr v, s') ->
  exists s1,
    execution samples configuration name s = (inr tt, s1) /\
    StronglySorted (descending fitness_value)
                   (most_fitted_accumulator (heap s')) /\
    (forall q : Q,
        with_key fitness_value q (most_fitted_accumulator (heap s'))
        = with_key fitness_value q (most_fitted_accumulator (heap s1))) /\
    v = columns (most_fitted_accumulator (heap s')).
Proof.
  intro H. apply find_patterns_inr in H.
  destruct H as (s1 & E & A & -> & _).
  exists s1. split; [exact E|]. rewrite A.
  split; [apply list_sort_reverse_sorted|].
  split; [intro q; apply list_sort_reverse_stable | apply rows_columns].
Qed.
End FindPatterns.

(** ** The population operators *)

Section PopulationFacts.
Import Py GE.

Lemma randrange_lt (n : nat) (g : Rng) :
  (0 < n)%nat -> (fst (randrange n g) < n)%nat.
Proof.
  intro Hn. unfold randrange. destruct (next g) as [r g']. cbn [fst].
  assert (H : (r mod N.of_nat n < N.of_nat n)%N) by (apply N.mod_lt; lia).
  lia.
Qed.

Lemma winner_fitness (a b : Individual) :
  (fitness_value a <= fitness_value (winner a b))%Q /\
  (fitness_value b <= fitness_value (winner a b))%Q.
Proof.
  unfold winner. destruct (lt (fitness_value a) (fitness_value b)) eqn:E.
  - apply lt_true_iff in E. split; [apply Qlt_le_weak, E | apply Qle_refl].
  - apply lt_false_iff in E. split; [apply Qle_refl | exact E].
Qed.

Lemma winner_in (a b : Individual) (l : list Individual) :
  In a l -> In b l -> In (winner a b) l.
Proof.
  intros Ha Hb. unfold winner.
  destruct (lt (fitness_value a) (fitness_value b)); assumption.
Qed.

Lemma choice_drawn (l : list Individual) (g : Rng) :
  l <> [] ->
  exists a g',
    choice l g = (inr a, g') /\
    stream g' = stream g /\ cursor g' = S (cursor g) /\
    drawn l g 0 = Some a /\ In a l.
Proof.
  intro Hl. destruct l as [|d t]; [congruence|].
  pose proof (randrange_lt (length (d :: t)) g) as Hk.
  unfold choice, drawn. unfold randrange, next in *. cbn [fst] in Hk.
  rewrite Nat.add_0_r.
  set (k := N.to_nat (stream g (cursor g) mod N.of_nat (length (d :: t)))) in *.
  assert (Lk : (k < length (d :: t))%nat) by (apply Hk; simpl; lia).
  exists (nth k (d :: t) d), (mkRng (stream g) (S (cursor g))).
  split; [reflexivity|]. split; [reflexivity|]. split; [reflexivity|].
  split; [apply nth_error_nth'; exact Lk | apply nth_In; exact Lk].
Qed.

Lemma drawn_shift (l : list Individual) (g g1 : Rng) (k j : nat) :
  stream g1 = stream g -> cursor g1 = (cursor g + k)%nat ->
  drawn l g1 j = drawn l g (k + j).
Proof.
  intros Hs Hc. unfold drawn. rewrite Hs, Hc.
  replace (cursor g + k + j)%nat with (cursor g + (k + j))%nat by lia.
  reflexivity.
Qed.

(** [n] tournaments on a non-empty generation take the [2n] next draws of
    the generator, a pair per tournament, and return the winners. *)
Lemma binary_tournament_draws (n : nat) (l : list Individual) (g : Rng) :
  l <> [] ->
  exists draws g',
    binary_tournament n l g = (inr (winners draws), g') /\
    stream g' = stream g /\ cursor g' = (cursor g + 2 * n)%nat /\
    length draws = n /\
    (forall j a b,
        nth_error draws j = Some (a, b) ->
        drawn l g (2 * j) = Some a /\ drawn l g (2 * j + 1) = Some b) /\
    Forall (fun d => In (fst d) l /\ In (snd d) l) draws.
Proof.
  intro Hl. revert g. induction n as [|n IH]; intro g.
  - exists [], g. split; [reflexivity|]. split; [reflexivity|].
    split; [lia|]. split; [reflexivity|].
    split; [intros [|j] a b H; discriminate H | constructor].
  - cbn [binary_tournament].
    destruct (choice_drawn l g Hl) as (a & g1 & Ca & Sa & Ka & Da & Ia).
    rewrite Ca.
    destruct (choice_drawn l g1 Hl) as (b & g2 & Cb & Sb & Kb & Db & Ib).
    rewrite Cb.
    destruct (IH g2) as (draws & g3 & R & S3 & K3 & L & D & F). rewrite R.
    exists ((a, b) :: draws), g3. split; [reflexivity|].
    split; [congruence|]. split; [lia|]. split; [simpl; congruence|].
    split; [|constructor; [split; assumption | exact F]].
    intros [|j] a' b' H.
    + cbn [nth_error] in H. inversion H; subst a' b'.
      split; [exact Da|].
      rewrite <- Db. symmetry.
      apply (drawn_shift l g g1 1 0); [exact Sa | lia].
    + cbn [nth_error] in H. apply D in H. destruct H as [Ha' Hb'].
      assert (S2 : stream g2 = stream g) by congruence.
      assert (K2 : cursor g2 = (cursor g + 2)%nat) by lia.
      rewrite (drawn_shift l g g2 2 _ S2 K2) in Ha'.
      rewrite (drawn_shift l g g2 2 _ S2 K2) in Hb'.
      split.
      * replace (2 * S j)%nat with (2 + 2 * j)%nat by lia. exact Ha'.
      * replace (2 * S j + 1)%nat with (2 + (2 * j + 1))%nat by lia. exact Hb'.
Qed.

Lemma winner_higher (a b : Individual) :
  ((fitness_value a < fitness_value b)%Q -> winner a b = b) /\
  ((fitness_value b <= fitness_value a)%Q -> winner a b = a).
Proof.
  unfold winner. destruct (lt (fitness_value a) (fitness_value b)) eqn:E.
  - apply lt_true_iff in E. split; [reflexivity|].
    intro H. exfalso. exact (Qle_not_lt _ _ H E).
  - apply lt_false_iff in E. split; [|reflexivity].
    intro H. exfalso. exact (Qle_not_lt _ _ E H).
Qed.

Lemma winners_in (l : list Individual) (draws : list (Individual * Individual)) :
  Forall (fun d => In (fst d) l /\ In (snd d) l) draws ->
  Forall (fun i => In i l) (winners draws).
Proof.
  induction 1 as [|d t [Ha Hb] _ IH]; simpl; constructor.
  - apply winner_in; assumption.
  - exact IH.
Qed.

(** C6.  On a Population whose generation has the configured size N,
    binary-tournament selection returns, leaving the Population as it was,
    the winners of N tournaments run on the next 2N draws of the generator:
    tournament j takes the individuals of the current generation that the
    draws 2j and 2j+1 pick -- each draw ranges over the whole generation, so
    the same individual may be drawn twice -- and keeps the second when its
    fitness is strictly higher and the first otherwise.  So the mating pool
    has size N, each of its members is an individual of the generation, and
    the fitness of a winner is at least that of both individuals drawn. *)
Theorem binary_tournament_pool (p : Population) (g : Rng) :
  selection_type (config p) = BINARY_TOURNAMENT ->
  length (generation p) = population_size (config p) ->
  exists draws g',
    _selection p g = (inr (winners draws), p, g') /\
    stream g' = stream g /\
    cursor g' = (cursor g + 2 * population_size (config p))%nat /\
    length draws = population_size (config p) /\
    (forall j a b,
        nth_error draws j = Some (a, b) ->
        drawn (generation p) g (2 * j) = Some a /\
        drawn (generation p) g (2 * j + 1) = Some b) /\
    Forall (fun d =>
              ((fitness_value (fst d) < fitness_value (snd d))%Q ->
               winner (fst d) (snd d) = snd d) /\
              ((fitness_value (snd d) <= fitness_value (fst d))%Q ->
               winner (fst d) (snd d) = fst d))
           draws /\
    Forall (fun d => In (fst d) (generation p) /\ In (snd d) (generation p))
           draws /\
    Forall (fun d =>
              (fitness_value (fst d) <= fitness_value (winner (fst d) (snd d)))%Q /\
              (fitness_value (snd d) <= fitness_value (winner (fst d) (snd d)))%Q)
           draws /\
    length (winners draws) = population_size (config p) /\
    Forall (fun i => In i (generation p)) (winners draws).
Proof.
  intros Hs Hn. unfold _selection. rewrite Hs.
  destruct (population_size (config p)) as [|n] eqn:En.
  - exists [], g. cbn [binary_tournament winners map length].
    split; [reflexivity|]. split; [reflexivity|]. split; [lia|].
    split; [reflexivity|].
    split; [intros [|j] a b H; discriminate H|].
    repeat split; constructor.
  - assert (Hl : generation p <> []).
    { intro E. rewrite E in Hn. discriminate. }
    destruct (binary_tournament_draws (S n) (generation p) g Hl)
      as (draws & g' & R & Sg & Kg & L & D & F).
    exists draws, g'. rewrite R.
    split; [reflexivity|]. split; [exact Sg|]. split; [exact Kg|].
    split; [exact L|]. split; [exact D|].
    split; [apply Forall_forall; intros d _; apply winner_higher|].
    split; [exact F|].
    split; [apply Forall_forall; intros d _; apply winner_fitness|].
    split; [unfold winners; rewrite length_map; exact L|].
    apply winners_in, F.
Qed.

Section WithCodec.
Context (decode : list bool -> Fenotype) (evaluate : Fenotype -> Q).

(** C4.  A configuration with k-tournament selection whose other modes
    are recognised constructs a Population without error, and on every
    Population with that configuration [_selection] raises
    [NotImplementedError] and leaves the Population, its generation
    included, and the generator as they were. *)
Theorem k_tournament_not_implemented (c : Config) (g : Rng) :
  selection_type c = K_TOURNAMENT ->
  recognised c = true ->
  (exists p g',
      Population_new decode evaluate c g = (inr p, g') /\ config p = c) /\
  (forall p g2,
      config p = c ->
      _selection p g2 = (inl NotImplementedError, p, g2) /\
      generation (snd (fst (_selection p g2))) = generation p).
Proof.
  intros Hs Hr. split.
  - unfold Population_new. rewrite Hr.
    destruct (random_individuals decode evaluate (population_size c)
                                 (dna_length c) g) as [gen g'].
    eexists. exists g'. split; reflexivity.
  - intros p g2 Hc. unfold _selection. rewrite Hc, Hs.
    split; reflexivity.
Qed.


End WithCodec.
End PopulationFacts.

(** ** The statements on concrete runs *)

Lemma find_patterns_runs_demo :
  Api.find_patterns Demo.samples None Demo.missing (Demo.start 3)
  = (inr (Api.columns [Demo.i2; Demo.i1; Demo.i3]), snd (Demo.outcome 3)) /\
  exists config docs bnf_g runs pre post t,
    Api.extends (Demo.start 3) (snd (Demo.outcome 3)) t /\
    t = pre ++ Api.EvDgg docs (inr bnf_g)
            :: Api.EvLog Api.Info Api.StartingExecution
            :: concat (map (Api.run_events docs bnf_g) runs) ++ post /\
    forallb Api.quiet pre = true /\
    forallb Api.quiet post = true /\
    filter Api.is_config pre = [Api.EvConfig None (inr config)] /\
    length runs = Z.to_nat (Api.max_runs config) /\
    filter Api.is_dgg t = [Api.EvDgg docs (inr bnf_g)] /\
    filter Api.is_population t
    = map (fun r => Api.EvPopulation docs bnf_g (inr (Api.run_population r)))
          runs /\
    filter Api.is_evolve t
    = map (fun r => Api.EvEvolve (Api.run_population r) (inr tt)) runs /\
    filter Api.is_add_time t
    = map (fun r => Api.EvAddTime
                      (Api.time_sub (Api.run_end r) (Api.run_start r)) (inr tt))
          runs.
Proof.
  assert (H : Api.find_patterns Demo.samples None Demo.missing (Demo.start 3)
              = (inr (Api.columns [Demo.i2; Demo.i1; Demo.i3]),
                 snd (Demo.outcome 3)))
    by (vm_compute; reflexivity).
  split; [exact H|].
  exact (find_patterns_runs _ _ _ _ _ _ H).
Defined.

Lemma find_patterns_fallback_demo :
  let s1 := snd (Api.ensure_default_model Demo.missing (Demo.start 3)) in
  let h3 := {| Api.most_fitted_accumulator :=
                 Api.most_fitted_accumulator (Api.heap s1);
               Api.ext := Demo.record_log Api.Warning
                            (Api.ModelNotFound Demo.missing)
                            (Api.ext (Api.heap s1)) |} in
  let s3 := {| Api.heap := h3;
               Api.calls :=
                 Api.calls s1
                 ++ [ Api.EvSpacyLoad Demo.missing (inl Py.OSError);
                      Api.EvLog Api.Warning (Api.ModelNotFound Demo.missing);
                      Api.EvSpacyLoad (Some "en_core_web_sm"%string)
                                      (inr "en_core_web_sm"%string) ] |} in
  Api.load_language_model Demo.missing s1 = (inr "en_core_web_sm"%string, s3) /\
  Api.find_patterns Demo.samples None Demo.missing (Demo.start 3)
  = Api.bind (Api.execute_runs "en_core_web_sm"%string Demo.samples None)
             (fun _ => Api.best_individuals) s3.
Proof.
  intros s1 h3 s3.
  apply (find_patterns_fallback Demo.samples None Demo.missing (Demo.start 3)
           s1 (Api.heap s1) "en_core_web_sm"%string h3);
    vm_compute; reflexivity.
Defined.

Lemma find_patterns_empty_demo :
  Api.find_patterns Demo.samples None Demo.missing (Demo.start 0)
  = (inr (Api.columns []), snd (Demo.outcome 0)) /\
  Api.most_fitted_accumulator (Api.heap (snd (Demo.outcome 0))) = [] /\
  Api.columns [] = [].
Proof.
  assert (H : Api.find_patterns Demo.samples None Demo.missing (Demo.start 0)
              = (inr (Api.columns []), snd (Demo.outcome 0)))
    by (vm_compute; reflexivity).
  assert (E : Api.most_fitted_accumulator (Api.heap (snd (Demo.outcome 0))) = [])
    by (vm_compute; reflexivity).
  split; [exact H|]. split; [exact E|].
  exact (find_patterns_empty _ _ _ _ _ _ H E).
Defined.

Lemma find_patterns_columns_demo :
  Api.find_patterns Demo.samples None Demo.missing (Demo.start 3)
  = (inr [ [ PyFenotype (fenotype Demo.i2); PyFenotype (fenotype Demo.i1);
             PyFenotype (fenotype Demo.i3) ];
           [ PyFloat 1; PyFloat (1 # 2); PyFloat (2 # 4) ] ],
     snd (Demo.outcome 3)) /\
  exists s1,
    Api.execution Demo.samples None Demo.missing (Demo.start 3) = (inr tt, s1) /\
    Permutation (Api.most_fitted_accumulator (Api.heap (snd (Demo.outcome 3))))
                (Api.most_fitted_accumulator (Api.heap s1)) /\
    StronglySorted (Py.descending fitness_value)
                   (Api.most_fitted_accumulator (Api.heap (snd (Demo.outcome 3)))) /\
    [ [ PyFenotype (fenotype Demo.i2); PyFenotype (fenotype Demo.i1);
        PyFenotype (fenotype Demo.i3) ];
      [ PyFloat 1; PyFloat (1 # 2); PyFloat (2 # 4) ] ]
    = Api.columns (Api.most_fitted_accumulator (Api.heap (snd (Demo.outcome 3)))).
Proof.
  assert (H : Api.find_patterns Demo.samples None Demo.missing (Demo.start 3)
              = (inr [ [ PyFenotype (fenotype Demo.i2);
                         PyFenotype (fenotype Demo.i1);
                         PyFenotype (fenotype Demo.i3) ];
                       [ PyFloat 1; PyFloat (1 # 2); PyFloat (2 # 4) ] ],
                 snd (Demo.outcome 3)))
    by (vm_compute; reflexivity).
  split; [exact H|].
  exact (find_patterns_columns _ _ _ _ _ _ H).
Defined.

Lemma find_patterns_stable_demo :
  Api.find_patterns Demo.samples None Demo.missing (Demo.start 3)
  = (inr (Api.columns [Demo.i2; Demo.i1; Demo.i3]), snd (Demo.outcome 3)) /\
  exists s1,
    Api.execution Demo.samples None Demo.missing (Demo.start 3) = (inr tt, s1) /\
    StronglySorted (Py.descending fitness_value)
                   (Api.most_fitted_accumulator (Api.heap (snd (Demo.outcome 3)))) /\
    (forall q : Q,
        Py.with_key fitness_value q
          (Api.most_fitted_accumulator (Api.heap (snd (Demo.outcome 3))))
        = Py.with_key fitness_value q (Api.most_fitted_accumulator (Api.heap s1))) /\
    Api.columns [Demo.i2; Demo.i1; Demo.i3]
    = Api.columns (Api.most_fitted_accumulator (Api.heap (snd (Demo.outcome 3)))).
Proof.
  assert (H : Api.find_patterns Demo.samples None Demo.missing (Demo.start 3)
              = (inr (Api.columns [Demo.i2; Demo.i1; Demo.i3]),
                 snd (Demo.outcome 3)))
    by (vm_compute; reflexivity).
  split; [exact H|].
  exact (find_patterns_stable _ _ _ _ _ _ H).
Defined.

(** C1, as stated, fails: with three individuals in the accumulator the call
    returns two tuples of three, not three pairs. *)
Lemma find_patterns_not_pairs :
  exists v s',
    Api.find_patterns Demo.samples None Demo.missing (Demo.start 3) = (inr v, s') /\
    length (Api.most_fitted_accumulator (Api.heap s')) = 3%nat /\
    length v = 2%nat /\
    v <> Api.pairs (Api.most_fitted_accumulator (Api.heap s')).
Proof.
  exists (Api.columns [Demo.i2; Demo.i1; Demo.i3]), (snd (Demo.outcome 3)).
  split; [vm_compute; reflexivity|].
  split; [vm_compute; reflexivity|].
  split; [reflexivity|].
  intro E. apply (f_equal (@length (list PyVal))) in E.
  vm_compute in E. discriminate E.
Qed.

Lemma binary_tournament_pool_demo :
  GE.selection_type (GE.config (Toy.even_population GE.MU_PLUS_LAMBDA))
  = GE.BINARY_TOURNAMENT /\
  length (GE.generation (Toy.even_population GE.MU_PLUS_LAMBDA)) = 4%nat /\
  exists draws g',
    GE._selection (Toy.even_population GE.MU_PLUS_LAMBDA) Toy.even_rng
    = (inr (GE.winners draws), Toy.even_population GE.MU_PLUS_LAMBDA, g') /\
    GE.stream g' = GE.stream Toy.even_rng /\
    GE.cursor g' = 8%nat /\
    length draws = 4%nat /\
    (forall j a b,
        nth_error draws j = Some (a, b) ->
        GE.drawn Toy.individuals Toy.even_rng (2 * j) = Some a /\
        GE.drawn Toy.individuals Toy.even_rng (2 * j + 1) = Some b) /\
    Forall (fun d =>
              ((fitness_value (fst d) < fitness_value (snd d))%Q ->
               GE.winner (fst d) (snd d) = snd d) /\
              ((fitness_value (snd d) <= fitness_value (fst d))%Q ->
               GE.winner (fst d) (snd d) = fst d))
           draws /\
    Forall (fun d => In (fst d) Toy.individuals /\ In (snd d) Toy.individuals)
           draws /\
    Forall (fun d =>
              (fitness_value (fst d)
               <= fitness_value (GE.winner (fst d) (snd d)))%Q /\
              (fitness_value (snd d)
               <= fitness_value (GE.winner (fst d) (snd d)))%Q)
           draws /\
    length (GE.winners draws) = 4%nat /\
    Forall (fun i => In i Toy.individuals) (GE.winners draws).
Proof.
  split; [reflexivity|]. split; [reflexivity|].
  apply (binary_tournament_pool (Toy.even_population GE.MU_PLUS_LAMBDA)
                                Toy.even_rng); reflexivity.
Defined.

Lemma k_tournament_not_implemented_demo :
  GE.selection_type Toy.k_config = GE.K_TOURNAMENT /\
  GE.recognised Toy.k_config = true /\
  (exists p g',
      GE.Population_new Toy.decode Toy.evaluate Toy.k_config Toy.even_rng
      = (inr p, g') /\ GE.config p = Toy.k_config) /\
  (forall p g2,
      GE.config p = Toy.k_config ->
      GE._selection p g2 = (inl Py.NotImplementedError, p, g2) /\
      GE.generation (snd (fst (GE._selection p g2))) = GE.generation p).
Proof.
  split; [reflexivity|]. split; [reflexivity|].
  apply (k_tournament_not_implemented Toy.decode Toy.evaluate Toy.k_config
                                      Toy.even_rng); reflexivity.
Defined.


(** * Further properties of [find_patterns] *)

(** ** The calls of a call that returns *)

Section CallSequence.
Import Py Api.
Context {X : Externals} {C : Collaborators}.

Lemma ensure_default_model_exact name s s1 :
  ensure_default_model name s = (inr tt, s1) ->
  extends s s1 (ensure_events name (negb (default_installed name s))).
Proof.
  unfold ensure_default_model. intro H.
  apply bind_inr in H. destruct H as (u & sa & Ha & H).
  assert (Hh : heap sa = logged_heap Info (LoadingModel name) (heap s)).
  { unfold log_ in Ha. inversion Ha; subst. reflexivity. }
  apply log_extends in Ha. destruct Ha as [_ Ea].
  apply bind_inr in H. destruct H as (ws & sb & Hb & H).
  apply read_inr in Hb. destruct Hb as [-> ->].
  unfold default_installed. rewrite <- Hh. unfold ensure_events.
  destruct (negb (existsb (String.eqb "en-core-web-sm") (working_set (heap sa)))).
  - apply bind_inr in H. destruct H as ([] & sc & Hc & H).
    apply log_extends in Hc. destruct Hc as [_ Ec].
    apply invoke_extends in H.
    change (extends s s1 ([EvLog Info (LoadingModel name)]
                            ++ [EvLog Info InstallingDefaultModel]
                            ++ [EvSpacyDownload default_model (inr tt)])).
    eapply extends_trans; [exact Ea|]. eapply extends_trans; eassumption.
  - apply ret_inr in H. destruct H as [_ ->]. exact Ea.
Qed.

Lemma load_language_model_exact name s nlp s' :
  load_language_model name s = (inr nlp, s') ->
  exists fell_back, extends s s' (load_events name fell_back nlp).
Proof.
  unfold load_language_model, try_except_OSError. intro H.
  destruct (invoke (EvSpacyLoad name) (spacy_load name) s) as [r s1] eqn:L.
  apply invoke_extends in L.
  destruct r as [e|l].
  - destruct e; try discriminate.
    apply bind_inr in H. destruct H as (u & s2 & H2 & H).
    apply log_extends in H2. destruct H2 as [_ E2].
    apply invoke_extends in H.
    exists true. unfold load_events.
    change (extends s s' ([EvSpacyLoad name (inl OSError)]
                            ++ [EvLog Warning (ModelNotFound name)]
                            ++ [EvSpacyLoad (Some default_model) (inr nlp)])).
    eapply extends_trans; [exact L|]. eapply extends_trans; eassumption.
  - inversion H; subst. exists false. exact L.
Qed.

Lemma comprehension_nlp_exact nlp samples s docs s' :
  comprehension (fun sample => invoke (EvNlp nlp sample) (nlp_call nlp sample))
                samples s = (inr docs, s') ->
  extends s s' (nlp_events nlp samples docs) /\ length docs = length samples.
Proof.
  revert s docs s'. induction samples as [|x l IH]; intros s docs s' H; simpl in H.
  - apply ret_inr in H. destruct H as [-> ->].
    split; [apply extends_refl | reflexivity].
  - apply bind_inr in H. destruct H as (d & s1 & H1 & H).
    apply invoke_extends in H1.
    apply bind_inr in H. destruct H as (ds & s2 & H2 & H).
    apply IH in H2. destruct H2 as (E2 & L2).
    apply ret_inr in H. destruct H as [-> ->].
    split; [|simpl; congruence].
    change (extends s s2 ([EvNlp nlp x (inr d)] ++ nlp_events nlp l ds)).
    eapply extends_trans; eassumption.
Qed.

Lemma setup_configuration_exact configuration s config s' :
  setup_configuration configuration s = (inr config, s') ->
  extends s s' (config_events configuration config).
Proof.
  unfold setup_configuration, config_events. intro H.
  destruct configuration as [path|].
  - apply bind_inr in H. destruct H as (u & s1 & H1 & H).
    apply log_extends in H1. destruct H1 as [_ E1].
    apply invoke_extends in H.
    change (extends s s' ([EvLog Info (SettingUpConfig path)]
                            ++ [EvConfig (Some path) (inr config)])).
    eapply extends_trans; eassumption.
  - apply bind_inr in H. destruct H as (c & s1 & H1 & H).
    apply invoke_extends in H1.
    apply bind_inr in H. destruct H as (u & s2 & H2 & H).
    apply log_extends in H2. destruct H2 as [_ E2].
    apply ret_inr in H. destruct H as [-> ->].
    change (extends s s2 ([EvConfig None (inr c)] ++ [EvLog Info ExistingConfig])).
    eapply extends_trans; eassumption.
Qed.

Lemma best_individuals_exact s r s' :
  best_individuals s = (r, s') ->
  extends s s' (report_events (most_fitted_accumulator (heap s'))).
Proof.
  unfold best_individuals. intro H.
  destruct (log_ Info BestIndividuals s) as [r1 s1] eqn:L.
  pose proof (log_accumulator _ _ _ _ _ L) as A1.
  apply log_extends in L as L'. destruct L' as [-> E1].
  rewrite (bind_eq _ _ _ _ _ L) in H.
  set (sorted := list_sort fitness_value true (most_fitted_accumulator (heap s))) in *.
  set (s2 := {| heap := {| most_fitted_accumulator := sorted; ext := ext (heap s1) |};
                calls := calls s1 |}).
  assert (S2 : sort_accumulator s1 = (inr tt, s2)).
  { unfold sort_accumulator, s2, sorted. rewrite A1. reflexivity. }
  rewrite (bind_eq _ _ _ _ _ S2) in H.
  assert (R2 : read most_fitted_accumulator s2 = (inr sorted, s2)) by reflexivity.
  rewrite (bind_eq _ _ _ _ _ R2) in H.
  destruct (for_each_log_total sorted s2) as (s3 & F & A3 & E3).
  rewrite (bind_eq _ _ _ _ _ F) in H.
  assert (R3 : read most_fitted_accumulator s3 = (inr sorted, s3)).
  { unfold read. rewrite A3. reflexivity. }
  rewrite (bind_eq _ _ _ _ _ R3) in H.
  unfold ret in H. inversion H; subst r s'. rewrite A3. cbn [s2 heap most_fitted_accumulator].
  unfold report_events.
  change (extends s s3 ([EvLog Info BestIndividuals]
                          ++ map (fun i => EvLog Info (BestIndividual i)) sorted)).
  eapply extends_trans; [exact E1|]. exact E3.
Qed.

(** Every call a returning [find_patterns] makes, in order. *)
Lemma find_patterns_calls samples configuration name s v s' :
  find_patterns samples configuration name s = (inr v, s') ->
  exists fell_back nlp docs config bnf_g runs,
    extends s s'
      (call_events name (negb (default_installed name s)) fell_back nlp
                   samples docs configuration config bnf_g runs
                   (most_fitted_accumulator (heap s'))) /\
    length docs = length samples /\
    length runs = Z.to_nat (max_runs config).
Proof.
  unfold find_patterns. intro H.
  apply bind_inr in H. destruct H as ([] & s1 & E & B).
  apply best_individuals_exact in B.
  unfold execution in E.
  apply bind_inr in E. destruct E as ([] & sa & Ha & E).
  apply ensure_default_model_exact in Ha.
  apply bind_inr in E. destruct E as (nlp & sb & Hb & E).
  apply load_language_model_exact in Hb. destruct Hb as (fell_back & Eb).
  unfold execute_runs in E.
  apply bind_inr in E. destruct E as ([] & sc & Hc & E).
  apply log_extends in Hc. destruct Hc as [_ Ec].
  apply bind_inr in E. destruct E as (docs & sd & Hd & E).
  apply comprehension_nlp_exact in Hd. destruct Hd as (Ed & Ld).
  apply bind_inr in E. destruct E as (config & se & He & E).
  apply setup_configuration_exact in He.
  apply bind_inr in E. destruct E as ([] & sf & Hf & E).
  apply invoke_extends in Hf.
  apply bind_inr in E. destruct E as (bnf_g & sg & Hg & E).
  apply invoke_extends in Hg.
  apply bind_inr in E. destruct E as ([] & sh & Hh & E).
  apply log_extends in Hh. destruct Hh as [_ Eh].
  apply bind_inr in E. destruct E as ([] & si & Hi & E).
  apply for_each_run_trace in Hi. destruct Hi as (runs & Lr & Ei).
  apply bind_inr in E. destruct E as ([] & sj & Hj & E).
  apply log_extends in Hj. destruct Hj as [_ Ej].
  apply invoke_extends in E.
  exists fell_back, nlp, docs, config, bnf_g, runs.
  split; [|split; [exact Ld | rewrite Lr; apply range_length]].
  unfold call_events, extends in *.
  rewrite B, E, Ej, Ei, Eh, Hg, Hf, He, Ed, Ec, Eb, Ha.
  repeat rewrite <- app_assoc. simpl. repeat rewrite <- app_assoc.
  reflexivity.
Qed.
End CallSequence.

(** ** What a call appends to the trace, whatever its outcome *)

Section Emits.
Import Py Api.
Context {X : Externals} {C : Collaborators}.

Lemma bind_cases {A B} (m : M A) (k : A -> M B) s r s' :
  bind m k s = (r, s') ->
  (exists e, m s = (inl e, s') /\ r = inl e) \/
  (exists a s1, m s = (inr a, s1) /\ k a s1 = (r, s')).
Proof.
  unfold bind. destruct (m s) as [[e|a] s1]; intro H.
  - left. exists e. inversion H; subst. split; reflexivity.
  - right. exists a, s1. split; [reflexivity | exact H].
Qed.

Lemma emits_ret {A} P (a : A) : emits P (ret a).
Proof.
  intros s r s' H. unfold ret in H. inversion H; subst.
  exists []. split; [apply extends_refl | reflexivity].
Qed.

Lemma emits_read {A} P (f : Heap -> A) : emits P (read f).
Proof.
  intros s r s' H. unfold read in H. inversion H; subst.
  exists []. split; [apply extends_refl | reflexivity].
Qed.

Lemma emits_sort P : emits P sort_accumulator.
Proof.
  intros s r s' H. unfold sort_accumulator in H. inversion H; subst.
  exists []. split; [|reflexivity]. unfold extends. cbn [calls].
  symmetry. apply app_nil_r.
Qed.

Lemma emits_log P lvl msg : P (EvLog lvl msg) = true -> emits P (log_ lvl msg).
Proof.
  intros HP s r s' H. apply log_extends in H. destruct H as [_ E].
  exists [EvLog lvl msg]. split; [exact E|]. simpl. rewrite HP. reflexivity.
Qed.

Lemma emits_monotonic P :
  (forall t, P (EvMonotonic t) = true) -> emits P monotonic_.
Proof.
  intros HP s r s' H. unfold monotonic_ in H.
  destruct (monotonic (heap s)) as [t h]. inversion H; subst.
  exists [EvMonotonic t]. split; [reflexivity|]. simpl. rewrite HP. reflexivity.
Qed.

Lemma emits_invoke {A} P (ev : exn + A -> Event) (op : Op A) :
  (forall r, P (ev r) = true) -> emits P (invoke ev op).
Proof.
  intros HP s r s' H. apply invoke_extends in H.
  exists [ev r]. split; [exact H|]. simpl. rewrite HP. reflexivity.
Qed.

Lemma emits_bind {A B} P (m : M A) (k : A -> M B) :
  emits P m -> (forall a, emits P (k a)) -> emits P (bind m k).
Proof.
  intros Hm Hk s r s' H. apply bind_cases in H.
  destruct H as [(e & H & ->) | (a & s1 & H1 & H2)].
  - apply Hm in H. destruct H as (t & E & F). exists t. split; assumption.
  - apply Hm in H1. destruct H1 as (t1 & E1 & F1).
    apply Hk in H2. destruct H2 as (t2 & E2 & F2).
    exists (t1 ++ t2). split; [eapply extends_trans; eassumption|].
    rewrite forallb_app, F1, F2. reflexivity.
Qed.

Lemma emits_try {A} P (m h : M A) :
  emits P m -> emits P h -> emits P (try_except_OSError m h).
Proof.
  intros Hm Hh s r s' H. unfold try_except_OSError in H.
  destruct (m s) as [r1 s1] eqn:M1.
  apply Hm in M1. destruct M1 as (t1 & E1 & F1).
  assert (D : (r1, s1) = (r, s') \/ h s1 = (r, s')).
  { destruct r1 as [e|a]; [destruct e|]; auto. }
  destruct D as [D | D].
  - inversion D; subst. exists t1. split; assumption.
  - apply Hh in D. destruct D as (t2 & E2 & F2).
    exists (t1 ++ t2). split; [eapply extends_trans; eassumption|].
    rewrite forallb_app, F1, F2. reflexivity.
Qed.

Lemma emits_for_each {A} P (l : list A) (body : A -> M unit) :
  (forall x, emits P (body x)) -> emits P (for_each l body).
Proof.
  intro Hb. induction l as [|x l IH]; cbn [for_each].
  - apply emits_ret.
  - apply emits_bind; [apply Hb | intro; exact IH].
Qed.

Lemma emits_comprehension {A B} P (f : A -> M B) (l : list A) :
  (forall x, emits P (f x)) -> emits P (comprehension f l).
Proof.
  intro Hf. induction l as [|x l IH]; cbn [comprehension].
  - apply emits_ret.
  - apply emits_bind; [apply Hf | intro].
    apply emits_bind; [exact IH | intro; apply emits_ret].
Qed.

Ltac emits_step :=
  first
    [ apply emits_ret
    | apply emits_read
    | apply emits_sort
    | apply emits_log; reflexivity
    | apply emits_monotonic; intro; reflexivity
    | apply emits_invoke; intro; reflexivity
    | apply emits_bind; [|intro]
    | apply emits_try
    | apply emits_for_each; intro
    | apply emits_comprehension; intro
    | match goal with
      | |- emits _ (if ?b then _ else _) => destruct b
      | |- emits _ (match ?c with Some _ => _ | None => _ end) => destruct c
      end ].

Ltac emits_all :=
  unfold ensure_default_model, load_language_model, execute_runs,
    setup_configuration, run, best_individuals;
  repeat emits_step.

Lemma forallb_negb_filter (f : Event -> bool) (t : list Event) :
  forallb (fun e => negb (f e)) t = true -> filter f t = [].
Proof.
  induction t as [|e t IH]; [reflexivity|]. simpl.
  rewrite andb_true_iff. intros [He Ht].
  apply negb_true_iff in He. rewrite He. apply IH, Ht.
Qed.

Lemma rest_no_download nlp samples configuration :
  emits no_download
        (bind (execute_runs nlp samples configuration)
              (fun _ => best_individuals)).
Proof. emits_all. Qed.

Lemma load_no_download name : emits no_download (load_language_model name).
Proof. emits_all. Qed.

Lemma ensure_no_load name : emits no_load (ensure_default_model name).
Proof. emits_all. Qed.

Lemma rest_no_load nlp samples configuration :
  emits no_load
        (bind (execute_runs nlp samples configuration)
              (fun _ => best_individuals)).
Proof. emits_all. Qed.
End Emits.

Section Outcomes.
Import Py Api.
Context {X : Externals} {C : Collaborators}.

(** [find_patterns] by phases: the installation step, the load, the rest. *)
Lemma find_patterns_phases samples configuration name s :
  find_patterns samples configuration name s
  = match ensure_default_model name s with
    | (inl e, s1) => (inl e, s1)
    | (inr _, s1) =>
        match load_language_model name s1 with
        | (inl e, s2) => (inl e, s2)
        | (inr nlp, s2) =>
            bind (execute_runs nlp samples configuration)
                 (fun _ => best_individuals) s2
        end
    end.
Proof.
  unfold find_patterns, execution, bind.
  destruct (ensure_default_model name s) as [[e|u] s1]; [reflexivity|].
  destruct (load_language_model name s1) as [[e|nlp] s2]; reflexivity.
Qed.

Lemma ensure_default_model_downloads name s r s1 :
  ensure_default_model name s = (r, s1) ->
  exists t, extends s s1 t /\
    (default_installed name s = true -> filter is_download t = []) /\
    (default_installed name s = false ->
     exists r0, filter is_download t = [EvSpacyDownload default_model r0]).
Proof.
  unfold ensure_default_model. intro H.
  apply bind_cases in H. destruct H as [(e & H & _) | (u & sa & Ha & H)].
  { apply log_extends in H. destruct H as [H _]. discriminate H. }
  assert (Hh : heap sa = logged_heap Info (LoadingModel name) (heap s)).
  { unfold log_ in Ha. inversion Ha; subst. reflexivity. }
  apply log_extends in Ha. destruct Ha as [_ Ea].
  apply bind_cases in H. destruct H as [(e & H & _) | (ws & sb & Hb & H)].
  { unfold read in H. discriminate H. }
  apply read_inr in Hb. destruct Hb as [-> ->].
  unfold default_installed. rewrite <- Hh.
  destruct (existsb (String.eqb "en-core-web-sm") (working_set (heap sa)));
    cbn [negb] in H.
  - unfold ret in H. inversion H; subst r s1.
    exists [EvLog Info (LoadingModel name)]. split; [exact Ea|].
    split; [reflexivity | discriminate].
  - apply bind_cases in H. destruct H as [(e & H & _) | (u' & sc & Hc & H)].
    { apply log_extends in H. destruct H as [H _]. discriminate H. }
    apply log_extends in Hc. destruct Hc as [_ Ec].
    apply invoke_extends in H.
    exists ([EvLog Info (LoadingModel name)]
              ++ [EvLog Info InstallingDefaultModel]
              ++ [EvSpacyDownload default_model r]).
    split; [eapply extends_trans; [exact Ea|]; eapply extends_trans; eassumption|].
    split; [discriminate|]. intros _. exists r. reflexivity.
Qed.

(** X2.  Whatever the outcome of the call, [find_patterns] downloads nothing
    when the distribution [en-core-web-sm] is in the working set at line 57,
    and otherwise downloads exactly once, the model [en_core_web_sm] --
    whichever model was asked for. *)
Theorem find_patterns_downloads samples configuration name s :
  exists t,
    extends s (snd (find_patterns samples configuration name s)) t /\
    (default_installed name s = true -> filter is_download t = []) /\
    (default_installed name s = false ->
     exists r0, filter is_download t = [EvSpacyDownload "en_core_web_sm"%string r0]).
Proof.
  rewrite find_patterns_phases.
  destruct (ensure_default_model name s) as [r1 s1] eqn:E1.
  apply ensure_default_model_downloads in E1.
  destruct E1 as (t1 & X1 & Hy & Hn).
  destruct r1 as [e|u]; [exists t1; cbn [snd]; auto|].
  destruct (load_language_model name s1) as [r2 s2] eqn:E2.
  apply load_no_download in E2. destruct E2 as (t2 & X2 & F2).
  apply forallb_negb_filter in F2.
  assert (G : forall t3, filter is_download t3 = [] ->
                filter is_download (t1 ++ t2 ++ t3) = filter is_download t1).
  { intros t3 F3. rewrite !filter_app, F2, F3. apply app_nil_r. }
  destruct r2 as [e|nlp].
  - exists (t1 ++ t2 ++ []). cbn [snd].
    split; [rewrite app_nil_r; eapply extends_trans; eassumption|].
    rewrite (G [] eq_refl). auto.
  - destruct (bind (execute_runs nlp samples configuration)
                   (fun _ => best_individuals) s2) as [r3 s3] eqn:E3.
    apply rest_no_download in E3. destruct E3 as (t3 & X3 & F3).
    apply forallb_negb_filter in F3.
    exists (t1 ++ t2 ++ t3). cbn [snd].
    split; [eapply extends_trans; [exact X1|]; eapply extends_trans; eassumption|].
    rewrite (G t3 F3). auto.
Qed.

Lemma load_language_model_loads name s r s' :
  load_language_model name s = (r, s') ->
  exists t, extends s s' t /\
    ((exists r0, r0 <> inl OSError /\ filter is_load t = [EvSpacyLoad name r0]) \/
     (exists r1, filter is_load t
                 = [EvSpacyLoad name (inl OSError);
                    EvSpacyLoad (Some default_model) r1])).
Proof.
  unfold load_language_model, try_except_OSError. intro H.
  destruct (invoke (EvSpacyLoad name) (spacy_load name) s) as [r1 s1] eqn:L.
  apply invoke_extends in L.
  assert (D : (r1 <> inl OSError /\ (r1, s1) = (r, s')) \/
              (r1 = inl OSError /\
               bind (log_ Warning (ModelNotFound name))
                    (fun _ => invoke (EvSpacyLoad (Some default_model))
                                     (spacy_load (Some default_model))) s1
               = (r, s'))).
  { destruct r1 as [e|a]; [destruct e|]; auto; left; split; auto; discriminate. }
  destruct D as [[Hn D] | [-> D]].
  - inversion D; subst. exists [EvSpacyLoad name r]. split; [exact L|].
    left. exists r. split; [exact Hn | reflexivity].
  - apply bind_cases in D. destruct D as [(e & D & _) | (u & s2 & H2 & D)].
    { apply log_extends in D. destruct D as [D _]. discriminate D. }
    apply log_extends in H2. destruct H2 as [_ E2].
    apply invoke_extends in D.
    exists ([EvSpacyLoad name (inl OSError)]
              ++ [EvLog Warning (ModelNotFound name)]
              ++ [EvSpacyLoad (Some default_model) r]).
    split; [eapply extends_trans; [exact L|]; eapply extends_trans; eassumption|].
    right. exists r. reflexivity.
Qed.

(** X3.  Whatever the outcome of the call, [find_patterns] loads at most two
    language models: none when the installation step raised; else the
    requested one alone when its load returned or raised anything but
    [OSError]; else the requested one, raising [OSError], followed by
    [en_core_web_sm]. *)
Theorem find_patterns_loads samples configuration name s :
  exists t,
    extends s (snd (find_patterns samples configuration name s)) t /\
    (filter is_load t = [] \/
     (exists r0, r0 <> inl OSError /\ filter is_load t = [EvSpacyLoad name r0]) \/
     (exists r1, filter is_load t
                 = [EvSpacyLoad name (inl OSError);
                    EvSpacyLoad (Some "en_core_web_sm"%string) r1])).
Proof.
  rewrite find_patterns_phases.
  destruct (ensure_default_model name s) as [r1 s1] eqn:E1.
  apply ensure_no_load in E1. destruct E1 as (t1 & X1 & F1).
  apply forallb_negb_filter in F1.
  destruct r1 as [e|u]; [exists t1; cbn [snd]; auto|].
  destruct (load_language_model name s1) as [r2 s2] eqn:E2.
  apply load_language_model_loads in E2. destruct E2 as (t2 & X2 & F2).
  assert (G : forall t3, filter is_load t3 = [] ->
                filter is_load (t1 ++ t2 ++ t3) = filter is_load t2).
  { intros t3 F3. rewrite !filter_app, F1, F3. apply app_nil_r. }
  destruct r2 as [e|nlp].
  - exists (t1 ++ t2 ++ []). cbn [snd].
    split; [rewrite app_nil_r; eapply extends_trans; eassumption|].
    rewrite (G [] eq_refl). right. exact F2.
  - destruct (bind (execute_runs nlp samples configuration)
                   (fun _ => best_individuals) s2) as [r3 s3] eqn:E3.
    apply rest_no_load in E3. destruct E3 as (t3 & X3 & F3).
    apply forallb_negb_filter in F3.
    exists (t1 ++ t2 ++ t3). cbn [snd].
    split; [eapply extends_trans; [exact X1|]; eapply extends_trans; eassumption|].
    rewrite (G t3 F3). right. exact F2.
Qed.
End Outcomes.

(** ** Exceptions *)

Section Exceptions.
Import Py Api.
Context {X : Externals} {C : Collaborators}.
Variable name : option string.

Lemma tolerated_returned (e : Event) : raised e = None -> tolerated name e.
Proof. intro H. left. exact H. Qed.

Lemma obeys_ret {A} (a : A) : obeys name (ret a).
Proof.
  intros s r s' H. unfold ret in H. inversion H; subst.
  exists []. split; [apply extends_refl | constructor].
Qed.

Lemma obeys_read {A} (f : Heap -> A) : obeys name (read f).
Proof.
  intros s r s' H. unfold read in H. inversion H; subst.
  exists []. split; [apply extends_refl | constructor].
Qed.

Lemma obeys_sort : obeys name sort_accumulator.
Proof.
  intros s r s' H. unfold sort_accumulator in H. inversion H; subst.
  exists []. split; [|constructor]. unfold extends. cbn [calls].
  symmetry. apply app_nil_r.
Qed.

Lemma obeys_log lvl msg : obeys name (log_ lvl msg).
Proof.
  intros s r s' H. apply log_extends in H. destruct H as [-> E].
  exists [EvLog lvl msg]. split; [exact E|].
  constructor; [apply tolerated_returned; reflexivity | constructor].
Qed.

Lemma obeys_monotonic : obeys name monotonic_.
Proof.
  intros s r s' H. unfold monotonic_ in H.
  destruct (monotonic (heap s)) as [t h]. inversion H; subst.
  exists [EvMonotonic t]. split; [reflexivity|].
  constructor; [apply tolerated_returned; reflexivity | constructor].
Qed.

Lemma obeys_invoke {A} (ev : exn + A -> Event) (op : Op A) :
  (forall r, raised (ev r) = failure r) -> obeys name (invoke ev op).
Proof.
  intros Hev s r s' H. apply invoke_extends in H.
  exists [ev r]. split; [exact H|].
  destruct r as [e|a]; cbn [disciplined].
  - exists [], (ev (inl e)). split; [reflexivity|].
    split; [constructor | apply Hev].
  - constructor; [apply tolerated_returned, Hev | constructor].
Qed.

Lemma disciplined_app {A} (t1 t2 : list Event) (r : exn + A) :
  Forall (tolerated name) t1 -> disciplined name r t2 ->
  disciplined name r (t1 ++ t2).
Proof.
  intros F1 D. destruct r as [e|a]; cbn [disciplined] in *.
  - destruct D as (t0 & ev & -> & F0 & R).
    exists (t1 ++ t0), ev. split; [apply app_assoc|].
    split; [apply Forall_app; split; assumption | exact R].
  - apply Forall_app. split; assumption.
Qed.

Lemma obeys_bind {A B} (m : M A) (k : A -> M B) :
  obeys name m -> (forall a, obeys name (k a)) -> obeys name (bind m k).
Proof.
  intros Hm Hk s r s' H. apply bind_cases in H.
  destruct H as [(e & H & ->) | (a & s1 & H1 & H2)].
  - apply Hm in H. destruct H as (t & E & D). exists t. split; [exact E | exact D].
  - apply Hm in H1. destruct H1 as (t1 & E1 & D1). cbn [disciplined] in D1.
    apply Hk in H2. destruct H2 as (t2 & E2 & D2).
    exists (t1 ++ t2). split; [eapply extends_trans; eassumption|].
    apply disciplined_app; assumption.
Qed.

Lemma obeys_for_each {A} (l : list A) (body : A -> M unit) :
  (forall x, obeys name (body x)) -> obeys name (for_each l body).
Proof.
  intro Hb. induction l as [|x l IH]; cbn [for_each].
  - apply obeys_ret.
  - apply obeys_bind; [apply Hb | intro; exact IH].
Qed.

Lemma obeys_comprehension {A B} (f : A -> M B) (l : list A) :
  (forall x, obeys name (f x)) -> obeys name (comprehension f l).
Proof.
  intro Hf. induction l as [|x l IH]; cbn [comprehension].
  - apply obeys_ret.
  - apply obeys_bind; [apply Hf | intro].
    apply obeys_bind; [exact IH | intro; apply obeys_ret].
Qed.

(** Lines 64-72 catch the [OSError] of the first load and nothing else. *)
Lemma obeys_load : obeys name (load_language_model name).
Proof.
  intros s r s' H. unfold load_language_model, try_except_OSError in H.
  destruct (invoke (EvSpacyLoad name) (spacy_load name) s) as [r1 s1] eqn:L.
  apply invoke_extends in L.
  assert (D : (r1 <> inl OSError /\ (r1, s1) = (r, s')) \/
              (r1 = inl OSError /\
               bind (log_ Warning (ModelNotFound name))
                    (fun _ => invoke (EvSpacyLoad (Some default_model))
                                     (spacy_load (Some default_model))) s1
               = (r, s'))).
  { destruct r1 as [e|a]; [destruct e|]; auto; left; split; auto; discriminate. }
  destruct D as [[Hn D] | [-> D]].
  - inversion D; subst. exists [EvSpacyLoad name r]. split; [exact L|].
    destruct r as [e|a]; cbn [disciplined].
    + exists [], (EvSpacyLoad name (inl e)). repeat split. constructor.
    + constructor; [apply tolerated_returned; reflexivity | constructor].
  - assert (O : obeys name
                  (bind (log_ Warning (ModelNotFound name))
                        (fun _ => invoke (EvSpacyLoad (Some default_model))
                                         (spacy_load (Some default_model))))).
    { apply obeys_bind; [apply obeys_log | intro].
      apply obeys_invoke. intro; reflexivity. }
    apply O in D. destruct D as (t2 & E2 & D2).
    exists ([EvSpacyLoad name (inl OSError)] ++ t2).
    split; [eapply extends_trans; eassumption|].
    apply disciplined_app; [|exact D2].
    constructor; [right; reflexivity | constructor].
Qed.

Ltac obeys_step :=
  first
    [ apply obeys_load
    | apply obeys_ret
    | apply obeys_read
    | apply obeys_sort
    | apply obeys_log
    | apply obeys_monotonic
    | apply obeys_invoke; intro; reflexivity
    | apply obeys_bind; [|intro]
    | apply obeys_for_each; intro
    | apply obeys_comprehension; intro
    | match goal with
      | |- obeys _ (if ?b then _ else _) => destruct b
      | |- obeys _ (match ?c with Some _ => _ | None => _ end) => destruct c
      end ].

Lemma obeys_find_patterns samples configuration :
  obeys name (find_patterns samples configuration name).
Proof.
  unfold find_patterns, execution, ensure_default_model, execute_runs,
    setup_configuration, run, best_individuals.
  repeat obeys_step.
Qed.
End Exceptions.

Section ExceptionsOfCalls.
Import Py Api.
Context {X : Externals} {C : Collaborators}.

(** X1.  [find_patterns] raises what a collaborator raised and stops there:
    when the call raises [e], the last call it made raised [e]; and in every
    outcome each call before the last -- each call at all, when
    [find_patterns] returns -- returned, but for the load of the requested
    model, whose [OSError] line 66 catches. *)
Theorem find_patterns_raises samples configuration name s :
  exists t,
    extends s (snd (find_patterns samples configuration name s)) t /\
    match fst (find_patterns samples configuration name s) with
    | inr _ => Forall (tolerated name) t
    | inl e => exists t0 ev,
                 t = t0 ++ [ev] /\ Forall (tolerated name) t0 /\
                 raised ev = Some e
    end.
Proof.
  destruct (find_patterns samples configuration name s) as [r s'] eqn:H.
  apply obeys_find_patterns in H. exact H.
Qed.
End ExceptionsOfCalls.

(** ** Reading the calls of a call that returns *)

Section ReadingCalls.
Import Py Api.
Context {X : Externals} {C : Collaborators}.

Lemma filter_map_all {A} (f : Event -> bool) (g : A -> Event) (l : list A) :
  (forall x, f (g x) = true) -> filter f (map g l) = map g l.
Proof.
  intro H. induction l as [|x l IH]; [reflexivity|].
  simpl. rewrite H, IH. reflexivity.
Qed.

Lemma filter_map_none {A} (f : Event -> bool) (g : A -> Event) (l : list A) :
  (forall x, f (g x) = false) -> filter f (map g l) = [].
Proof.
  intro H. induction l as [|x l IH]; [reflexivity|].
  simpl. rewrite H, IH. reflexivity.
Qed.

Lemma filter_call_events (f : Event -> bool) name downloaded fell_back nlp
    samples docs configuration config bnf_g runs acc :
  filter f (call_events name downloaded fell_back nlp samples docs
                        configuration config bnf_g runs acc)
  = filter f (ensure_events name downloaded)
    ++ filter f (load_events name fell_back nlp)
    ++ filter f [EvLog Info BuildingDocs]
    ++ filter f (nlp_events nlp samples docs)
    ++ filter f (config_events configuration config)
    ++ filter f [EvStats (inr tt); EvDgg docs (inr bnf_g);
                 EvLog Info StartingExecution]
    ++ filter f (concat (map (run_events docs bnf_g) runs))
    ++ filter f [EvLog Info ExecutionReport; EvPersist (inr tt)]
    ++ filter f (report_events acc).
Proof.
  unfold call_events.
  change (filter f
            (ensure_events name downloaded
             ++ load_events name fell_back nlp
             ++ [EvLog Info BuildingDocs]
             ++ nlp_events nlp samples docs
             ++ config_events configuration config
             ++ [EvStats (inr tt); EvDgg docs (inr bnf_g);
                 EvLog Info StartingExecution]
             ++ concat (map (run_events docs bnf_g) runs)
             ++ [EvLog Info ExecutionReport; EvPersist (inr tt)]
             ++ report_events acc) = 
          filter f (ensure_events name downloaded)
          ++ filter f (load_events name fell_back nlp)
          ++ filter f [EvLog Info BuildingDocs]
          ++ filter f (nlp_events nlp samples docs)
          ++ filter f (config_events configuration config)
          ++ filter f [EvStats (inr tt); EvDgg docs (inr bnf_g);
                       EvLog Info StartingExecution]
          ++ filter f (concat (map (run_events docs bnf_g) runs))
          ++ filter f [EvLog Info ExecutionReport; EvPersist (inr tt)]
          ++ filter f (report_events acc)).
  rewrite !filter_app. reflexivity.
Qed.

Lemma filter_report_none (f : Event -> bool) (acc : list Individual) :
  (forall lvl msg, f (EvLog lvl msg) = false) ->
  filter f (report_events acc) = [].
Proof.
  intro H. unfold report_events. cbn [filter]. rewrite H.
  apply filter_map_none. intro. apply H.
Qed.

Lemma filter_nlp_none (f : Event -> bool) nlp samples docs :
  (forall l x r, f (EvNlp l x r) = false) ->
  filter f (nlp_events nlp samples docs) = [].
Proof. intro H. apply filter_map_none. intro. apply H. Qed.

Lemma filter_runs_none (f : Event -> bool) docs bnf_g runs :
  (forall e, in_run e = true -> f e = false) ->
  filter f (concat (map (run_events docs bnf_g) runs)) = [].
Proof.
  intro H. rewrite (filter_runs f (fun _ => [])).
  - apply concat_nils.
  - intro r. unfold run_events. cbn [filter]. rewrite !H by reflexivity.
    reflexivity.
Qed.

Lemma filter_in_run_runs docs bnf_g runs :
  filter in_run (concat (map (run_events docs bnf_g) runs))
  = concat (map (run_events docs bnf_g) runs).
Proof. apply filter_runs. intro r. reflexivity. Qed.

Lemma messages_app (t1 t2 : list Event) :
  messages (t1 ++ t2) = messages t1 ++ messages t2.
Proof. unfold messages. apply flat_map_app. Qed.

Lemma messages_nlp nlp samples docs : messages (nlp_events nlp samples docs) = [].
Proof.
  unfold nlp_events. induction (combine samples docs) as [|x l IH];
    [reflexivity | exact IH].
Qed.

Lemma messages_runs docs bnf_g runs :
  messages (concat (map (run_events docs bnf_g) runs)) = [].
Proof.
  induction runs as [|r runs IH]; [reflexivity|].
  cbn [map concat]. rewrite messages_app, IH. reflexivity.
Qed.

Lemma messages_report (acc : list Individual) :
  messages (report_events acc)
  = (Info, BestIndividuals) :: map (fun i => (Info, BestIndividual i)) acc.
Proof.
  unfold report_events. cbn [messages flat_map app]. f_equal.
  induction acc as [|i l IH]; [reflexivity|]. simpl. rewrite IH. reflexivity.
Qed.

(** X4.  A call that returns annotates each sample once, in order, with the
    language model it loaded -- the requested one, or [en_core_web_sm] after
    the [OSError] of the requested one -- and hands the documents so
    obtained, as many as there are samples and in their order, to the one
    [dgg] call and to the construction of every Population. *)
Theorem find_patterns_annotates samples configuration name s v s' :
  find_patterns samples configuration name s = (inr v, s') ->
  exists t fell_back nlp docs bnf_g runs,
    extends s s' t /\
    filter is_load t = loads name fell_back nlp /\
    filter is_nlp t = nlp_events nlp samples docs /\
    length docs = length samples /\
    filter is_dgg t = [EvDgg docs (inr bnf_g)] /\
    filter is_population t
    = map (fun r => EvPopulation docs bnf_g (inr (run_population r))) runs.
Proof.
  intro H. apply find_patterns_calls in H.
  destruct H as (fell_back & nlp & docs & config & bnf_g & runs & E & Ld & _).
  eexists. exists fell_back, nlp, docs, bnf_g, runs.
  split; [exact E|].
  split; [|split; [|split; [exact Ld|split]]].
  - rewrite filter_call_events.
    rewrite filter_nlp_none, filter_runs_none, filter_report_none;
      try (intros; reflexivity);
      try (intros [] He; try discriminate He; reflexivity).
    destruct (negb (default_installed name s)), fell_back, configuration;
      reflexivity.
  - rewrite filter_call_events.
    rewrite filter_runs_none, filter_report_none;
      try (intros; reflexivity);
      try (intros [] He; try discriminate He; reflexivity).
    unfold nlp_events at 1. rewrite filter_map_all by (intro; reflexivity).
    destruct (negb (default_installed name s)), fell_back, configuration;
      cbn; rewrite ?app_nil_r; reflexivity.
  - rewrite filter_call_events.
    rewrite filter_nlp_none, filter_runs_none, filter_report_none;
      try (intros; reflexivity);
      try (intros [] He; try discriminate He; reflexivity).
    destruct (negb (default_installed name s)), fell_back, configuration;
      reflexivity.
  - rewrite filter_call_events.
    rewrite filter_nlp_none, filter_report_none by (intros; reflexivity).
    rewrite (filter_runs is_population
               (fun r => [EvPopulation docs bnf_g (inr (run_population r))]))
      by reflexivity.
    rewrite concat_singletons.
    destruct (negb (default_installed name s)), fell_back, configuration;
      cbn; rewrite ?app_nil_r; reflexivity.
Qed.

(** X5.  The lines a call that returns has logged are, in order: the model
    asked for; the installation notice, when the default model's
    distribution was not in the working set; the warning, when the requested
    model raised [OSError]; the building of the documents; the configuration
    line; the start of the execution; the report; the heading of the best
    individuals; and one line per individual of the accumulator, in the
    order the sort has left it.  Nothing is logged during the runs. *)
Theorem find_patterns_log_lines samples configuration name s v s' :
  find_patterns samples configuration name s = (inr v, s') ->
  exists t fell_back nlp,
    extends s s' t /\
    filter is_load t = loads name fell_back nlp /\
    messages t = log_lines name (default_installed name s) fell_back
                           configuration (most_fitted_accumulator (heap s')).
Proof.
  intro H. apply find_patterns_calls in H.
  destruct H as (fell_back & nlp & docs & config & bnf_g & runs & E & _ & _).
  eexists. exists fell_back, nlp.
  split; [exact E|]. split.
  - rewrite filter_call_events.
    rewrite filter_nlp_none, filter_runs_none, filter_report_none;
      try (intros; reflexivity);
      try (intros [] He; try discriminate He; reflexivity).
    destruct (negb (default_installed name s)), fell_back, configuration;
      reflexivity.
  - unfold call_events, log_lines.
    rewrite !messages_app.
    change (messages (EvLog Info BuildingDocs
                        :: nlp_events nlp samples docs
                        ++ config_events configuration config
                        ++ EvStats (inr tt) :: EvDgg docs (inr bnf_g)
                        :: EvLog Info StartingExecution
                        :: concat (map (run_events docs bnf_g) runs)
                        ++ EvLog Info ExecutionReport :: EvPersist (inr tt)
                        :: report_events (most_fitted_accumulator (heap s'))))
      with (messages ([EvLog Info BuildingDocs]
                        ++ nlp_events nlp samples docs
                        ++ config_events configuration config
                        ++ [EvStats (inr tt); EvDgg docs (inr bnf_g);
                            EvLog Info StartingExecution]
                        ++ concat (map (run_events docs bnf_g) runs)
                        ++ [EvLog Info ExecutionReport; EvPersist (inr tt)]
                        ++ report_events (most_fitted_accumulator (heap s')))).
    rewrite !messages_app, messages_nlp, messages_runs, messages_report.
    destruct (default_installed name s), fell_back, configuration; reflexivity.
Qed.

(** X6.  In a call that returns, the clock readings, the constructions of a
    Population, the [evolve], [add_time] and [calculate_metrics] calls are
    those of the run loop and no others: six per element of
    [range(0, config.max_runs)], for the configuration the call constructed;
    with [max_runs] zero or negative there is none of them. *)
Theorem find_patterns_run_calls samples configuration name s v s' :
  find_patterns samples configuration name s = (inr v, s') ->
  exists t config docs bnf_g runs,
    extends s s' t /\
    filter is_config t = [EvConfig configuration (inr config)] /\
    length runs = Z.to_nat (max_runs config) /\
    filter in_run t = concat (map (run_events docs bnf_g) runs) /\
    length (filter in_run t) = (6 * Z.to_nat (max_runs config))%nat /\
    ((max_runs config <= 0)%Z -> filter in_run t = []).
Proof.
  intro H. apply find_patterns_calls in H.
  destruct H as (fell_back & nlp & docs & config & bnf_g & runs & E & _ & Lr).
  eexists. exists config, docs, bnf_g, runs.
  split; [exact E|].
  assert (Fc : filter in_run
                 (call_events name (negb (default_installed name s)) fell_back
                    nlp samples docs configuration config bnf_g runs
                    (most_fitted_accumulator (heap s')))
               = concat (map (run_events docs bnf_g) runs)).
  { rewrite filter_call_events.
    rewrite filter_nlp_none, filter_report_none by (intros; reflexivity).
    rewrite filter_in_run_runs.
    destruct (negb (default_installed name s)), fell_back, configuration;
      cbn; rewrite ?app_nil_r; reflexivity. }
  split; [|split; [exact Lr | split; [exact Fc | split]]].
  - rewrite filter_call_events.
    rewrite filter_nlp_none, filter_runs_none, filter_report_none;
      try (intros; reflexivity);
      try (intros [] He; try discriminate He; reflexivity).
    destruct (negb (default_installed name s)), fell_back, configuration;
      reflexivity.
  - rewrite Fc, <- Lr. clear. induction runs as [|r runs IH]; [reflexivity|].
    cbn [map concat]. rewrite length_app, IH. cbn [run_events length]. lia.
  - intro Hz. rewrite Fc.
    assert (Z.to_nat (max_runs config) = 0%nat) as Z0 by lia.
    rewrite Z0 in Lr. destruct runs; [reflexivity | discriminate Lr].
Qed.

(** X7.  A call that returns constructs the [Stats] object once and persists
    it once: the construction comes before every call of the run loop and
    the [persist] call after every one of them, and after [persist] nothing
    follows but the logging of the best individuals. *)
Theorem find_patterns_stats_once samples configuration name s v s' :
  find_patterns samples configuration name s = (inr v, s') ->
  exists t a b,
    extends s s' t /\
    t = a ++ EvStats (inr tt) :: b ++ EvPersist (inr tt)
          :: report_events (most_fitted_accumulator (heap s')) /\
    filter is_stats t = [EvStats (inr tt)] /\
    filter is_persist t = [EvPersist (inr tt)] /\
    filter in_run a = [] /\
    filter in_run b = filter in_run t.
Proof.
  intro H. apply find_patterns_calls in H.
  destruct H as (fell_back & nlp & docs & config & bnf_g & runs & E & _ & _).
  eexists.
  exists (ensure_events name (negb (default_installed name s))
            ++ load_events name fell_back nlp
            ++ [EvLog Info BuildingDocs]
            ++ nlp_events nlp samples docs
            ++ config_events configuration config).
  exists (EvDgg docs (inr bnf_g) :: EvLog Info StartingExecution
            :: concat (map (run_events docs bnf_g) runs)
            ++ [EvLog Info ExecutionReport]).
  split; [exact E|].
  split; [|split; [|split; [|split]]].
  - unfold call_events. repeat rewrite <- app_assoc. cbn [app].
    repeat rewrite <- app_assoc. reflexivity.
  - rewrite filter_call_events.
    rewrite filter_nlp_none, filter_runs_none, filter_report_none;
      try (intros; reflexivity);
      try (intros [] He; try discriminate He; reflexivity).
    destruct (negb (default_installed name s)), fell_back, configuration;
      reflexivity.
  - rewrite filter_call_events.
    rewrite filter_nlp_none, filter_runs_none, filter_report_none;
      try (intros; reflexivity);
      try (intros [] He; try discriminate He; reflexivity).
    destruct (negb (default_installed name s)), fell_back, configuration;
      reflexivity.
  - rewrite !filter_app.
    rewrite filter_nlp_none by (intros; reflexivity).
    destruct (negb (default_installed name s)), fell_back, configuration;
      reflexivity.
  - rewrite filter_call_events.
    rewrite filter_nlp_none, filter_report_none by (intros; reflexivity).
    cbn [filter in_run]. rewrite filter_app.
    destruct (negb (default_installed name s)), fell_back, configuration;
      cbn; rewrite ?app_nil_r; reflexivity.
Qed.
End ReadingCalls.

(** ** The sort and the transposition, once more *)

Section SortedInput.
Import Py.
Context {A : Type} (key : A -> Q).

Lemma StronglySorted_rev (R : A -> A -> Prop) (l : list A) :
  StronglySorted R l -> StronglySorted (fun a b => R b a) (rev l).
Proof.
  induction 1 as [|x t St IH Hx]; simpl; [constructor|].
  assert (G : forall m, StronglySorted (fun a b => R b a) m ->
              Forall (fun z => R x z) m ->
              StronglySorted (fun a b => R b a) (m ++ [x])).
  { induction 1 as [|z m Sm IHm Hz]; intros Hm; simpl.
    - repeat constructor.
    - inversion Hm; subst. constructor; [apply IHm; assumption|].
      apply Forall_app. split; [exact Hz|]. repeat constructor. assumption. }
  apply G; [exact IH | apply Forall_rev; exact Hx].
Qed.

Lemma stable_sort_sorted_id (l : list A) :
  StronglySorted (ascending key) l -> stable_sort key l = l.
Proof.
  induction 1 as [|x t St IH Hx]; [reflexivity|].
  cbn [stable_sort]. rewrite IH.
  destruct t as [|y t']; [reflexivity|].
  cbn [insert]. inversion Hx; subst.
  assert (E : lt (key y) (key x) = false) by (apply lt_false_iff; assumption).
  rewrite E. reflexivity.
Qed.

(** A list already in descending order of its keys is left as it is. *)
Lemma list_sort_reverse_sorted_id (l : list A) :
  StronglySorted (descending key) l -> list_sort key true l = l.
Proof.
  intro H. unfold list_sort.
  rewrite stable_sort_sorted_id; [apply rev_involutive|].
  apply (StronglySorted_rev (descending key)). exact H.
Qed.
End SortedInput.

Section Transposition.
Import Py Api.
Context {X : Externals} {C : Collaborators}.

Lemma zip_steps_two_columns {A B} (f g : B -> A) (l : list B) :
  zip_steps (length l) [map f l; map g l] = map (fun i => [f i; g i]) l.
Proof.
  induction l as [|x t IH]; [reflexivity|].
  cbn [length map zip_steps heads tl]. rewrite IH. reflexivity.
Qed.

Lemma zip_star_columns (acc : list Individual) :
  zip_star (columns acc) = rows acc.
Proof.
  destruct acc as [|i l]; [reflexivity|].
  unfold columns, zip_star, rows. rewrite length_map.
  apply (zip_steps_two_columns (fun i => PyFenotype (fenotype i))
                               (fun i => PyFloat (fitness_value i)) (i :: l)).
Qed.

(** X8.  When the call has passed line 100 with an accumulator that is
    already in descending order of fitness, the sort of line 103 changes
    nothing: the call returns the tuples of that accumulator and leaves it as
    it was. *)
Theorem find_patterns_sorted_unchanged samples configuration name s s1 :
  execution samples configuration name s = (inr tt, s1) ->
  StronglySorted (descending fitness_value)
                 (most_fitted_accumulator (heap s1)) ->
  exists s',
    find_patterns samples configuration name s
    = (inr (columns (most_fitted_accumulator (heap s1))), s') /\
    most_fitted_accumulator (heap s') = most_fitted_accumulator (heap s1).
Proof.
  intros E S. unfold find_patterns. rewrite (bind_eq _ _ _ _ _ E).
  destruct (best_individuals_spec s1) as (s' & R & Acc & _).
  rewrite (list_sort_reverse_sorted_id fitness_value _ S) in R, Acc.
  exists s'. split; [|exact Acc].
  rewrite R, rows_columns. reflexivity.
Qed.

(** X9.  Transposing the value a call returns gives one
    [[phenotype, fitness]] row per individual of the accumulator the call
    leaves, in the accumulator's order; for the empty value it gives no
    row. *)
Theorem find_patterns_transpose samples configuration name s v s' :
  find_patterns samples configuration name s = (inr v, s') ->
  zip_star v = rows (most_fitted_accumulator (heap s')) /\
  length (zip_star v) = length (most_fitted_accumulator (heap s')).
Proof.
  intro H. apply find_patterns_inr in H.
  destruct H as (s1 & _ & _ & -> & _).
  rewrite rows_columns, zip_star_columns.
  split; [reflexivity|]. unfold rows. apply length_map.
Qed.
End Transposition.

(** ** The further statements on concrete runs *)

Lemma demo_returns :
  Api.find_patterns Demo.samples None Demo.missing (Demo.start 3)
  = (inr (Api.columns [Demo.i2; Demo.i1; Demo.i3]), snd (Demo.outcome 3)).
Proof. vm_compute. reflexivity. Qed.

Lemma demo_sorted_returns :
  Api.find_patterns Demo.samples Demo.configuration
                    (Some "en_core_web_sm"%string) Demo.sorted_start
  = (inr (Api.columns [Demo.i2; Demo.i1; Demo.i3]), snd Demo.sorted_outcome).
Proof. vm_compute. reflexivity. Qed.

Lemma find_patterns_annotates_demo :
  exists t fell_back nlp docs bnf_g runs,
    Api.extends (Demo.start 3) (snd (Demo.outcome 3)) t /\
    filter Api.is_load t = Api.loads Demo.missing fell_back nlp /\
    filter Api.is_nlp t = Api.nlp_events nlp Demo.samples docs /\
    length docs = length Demo.samples /\
    filter Api.is_dgg t = [Api.EvDgg docs (inr bnf_g)] /\
    filter Api.is_population t
    = map (fun r => Api.EvPopulation docs bnf_g (inr (Api.run_population r)))
          runs.
Proof.
  exact (find_patterns_annotates _ _ _ _ _ _ demo_returns).
Defined.

Lemma find_patterns_log_lines_demo :
  exists t fell_back nlp,
    Api.extends Demo.sorted_start (snd Demo.sorted_outcome) t /\
    filter Api.is_load t
    = Api.loads (Some "en_core_web_sm"%string) fell_back nlp /\
    Api.messages t
    = Api.log_lines (Some "en_core_web_sm"%string)
        (Api.default_installed (Some "en_core_web_sm"%string) Demo.sorted_start)
        fell_back Demo.configuration
        (Api.most_fitted_accumulator (Api.heap (snd Demo.sorted_outcome))).
Proof.
  exact (find_patterns_log_lines _ _ _ _ _ _ demo_sorted_returns).
Defined.

Lemma find_patterns_run_calls_demo :
  exists t config docs bnf_g runs,
    Api.extends (Demo.start 3) (snd (Demo.outcome 3)) t /\
    filter Api.is_config t = [Api.EvConfig None (inr config)] /\
    length runs = Z.to_nat (Api.max_runs config) /\
    filter Api.in_run t = concat (map (Api.run_events docs bnf_g) runs) /\
    length (filter Api.in_run t) = (6 * Z.to_nat (Api.max_runs config))%nat /\
    ((Api.max_runs config <= 0)%Z -> filter Api.in_run t = []).
Proof.
  exact (find_patterns_run_calls _ _ _ _ _ _ demo_returns).
Defined.

Lemma find_patterns_stats_once_demo :
  exists t a b,
    Api.extends Demo.sorted_start (snd Demo.sorted_outcome) t /\
    t = a ++ Api.EvStats (inr tt) :: b ++ Api.EvPersist (inr tt)
          :: Api.report_events
               (Api.most_fitted_accumulator (Api.heap (snd Demo.sorted_outcome))) /\
    filter Api.is_stats t = [Api.EvStats (inr tt)] /\
    filter Api.is_persist t = [Api.EvPersist (inr tt)] /\
    filter Api.in_run a = [] /\
    filter Api.in_run b = filter Api.in_run t.
Proof.
  exact (find_patterns_stats_once _ _ _ _ _ _ demo_sorted_returns).
Defined.

Lemma find_patterns_sorted_unchanged_demo :
  let s1 := snd (Api.execution Demo.samples Demo.configuration
                               (Some "en_core_web_sm"%string) Demo.sorted_start) in
  Api.most_fitted_accumulator (Api.heap s1) = [Demo.i2; Demo.i1; Demo.i3] /\
  exists s',
    Api.find_patterns Demo.samples Demo.configuration
                      (Some "en_core_web_sm"%string) Demo.sorted_start
    = (inr (Api.columns (Api.most_fitted_accumulator (Api.heap s1))), s') /\
    Api.most_fitted_accumulator (Api.heap s')
    = Api.most_fitted_accumulator (Api.heap s1).
Proof.
  intro s1. split; [vm_compute; reflexivity|].
  apply (find_patterns_sorted_unchanged Demo.samples Demo.configuration
           (Some "en_core_web_sm"%string) Demo.sorted_start s1).
  - vm_compute. reflexivity.
  - assert (E : Api.most_fitted_accumulator (Api.heap s1)
                = [Demo.i2; Demo.i1; Demo.i3]) by (vm_compute; reflexivity).
    rewrite E.
    repeat constructor; unfold Py.descending, Qle; simpl; lia.
Defined.

Lemma find_patterns_transpose_demo :
  Py.zip_star (Api.columns [Demo.i2; Demo.i1; Demo.i3])
  = Api.rows (Api.most_fitted_accumulator (Api.heap (snd (Demo.outcome 3)))) /\
  length (Py.zip_star (Api.columns [Demo.i2; Demo.i1; Demo.i3]))
  = length (Api.most_fitted_accumulator (Api.heap (snd (Demo.outcome 3)))).
Proof.
  exact (find_patterns_transpose _ _ _ _ _ _ demo_returns).
Defined.
